(** * DashGraph (src/plot.js): a shallow embedding and its checked properties

    The plotting engine of [src/plot.js] is embedded function by function:
    [DashGraph.binarySearch], the [DashGraph.Data] series object with its
    window and colour-filter cursor, and the [DashGraph.Plot] methods that
    compute the scales, the ticks, the drawing commands and the zoom
    gesture.

    Numbers.  JavaScript numbers are modelled as exact rationals kept in
    lowest terms, plus the single non-number [NaN]; the rounding of IEEE
    doubles and the two infinities are outside the model (a division by
    zero yields [NaN] here).  [Undefined] and [Null] are the two other
    values the code reads where it expects a number. *)

From Equations Require Import Equations.
From Stdlib Require Import ZArith QArith Qround Qabs Qreduction Qpower Qminmax.
From Stdlib Require Import List Sorted Bool String Lia.
Import ListNotations.

Local Open Scope Z_scope.

(* ===================================================================== *)
(** ** JavaScript values and arithmetic *)
(* ===================================================================== *)

Module JS.

Inductive value : Type :=
| Num (q : Q)
| NaN
| Undefined
| Null.

(** ToNumber: [undefined] becomes NaN and [null] becomes +0. *)
Definition ToNumber (v : value) : value :=
  match v with
  | Num q => Num q
  | NaN => NaN
  | Undefined => NaN
  | Null => Num 0
  end.

Definition num (q : Q) : value := Num (Qred q).
Definition int (z : Z) : value := Num (inject_Z z).

Definition arith (f : Q -> Q -> Q) (a b : value) : value :=
  match ToNumber a, ToNumber b with
  | Num x, Num y => num (f x y)
  | _, _ => NaN
  end.

Definition add := arith Qplus.
Definition sub := arith Qminus.
Definition mul := arith Qmult.

(** [a / b]; a zero divisor leaves the rationals. *)
Definition div (a b : value) : value :=
  match ToNumber a, ToNumber b with
  | Num x, Num y => if Qeq_bool y 0 then NaN else num (x / y)
  | _, _ => NaN
  end.

(** Relational operators: any comparison with NaN is false. *)
Definition rel (f : Q -> Q -> bool) (a b : value) : bool :=
  match ToNumber a, ToNumber b with
  | Num x, Num y => f x y
  | _, _ => false
  end.

Definition Qlt_bool (x y : Q) : bool := negb (Qle_bool y x).

Definition le := rel Qle_bool.
Definition lt := rel Qlt_bool.
Definition ge := rel (fun x y => Qle_bool y x).
Definition gt := rel (fun x y => Qlt_bool y x).

(** Strict equality [===]: no conversion; NaN differs from itself. *)
Definition seq (a b : value) : bool :=
  match a, b with
  | Num x, Num y => Qeq_bool x y
  | Undefined, Undefined => true
  | Null, Null => true
  | _, _ => false
  end.

(** [Math.floor], [Math.ceil], [Math.abs], [Math.round]. *)
Definition on_num (f : Q -> Q) (a : value) : value :=
  match ToNumber a with
  | Num x => num (f x)
  | _ => NaN
  end.

Definition Math_floor := on_num (fun x => inject_Z (Qfloor x)).
Definition Math_ceil := on_num (fun x => inject_Z (Qceiling x)).
Definition Math_abs := on_num Qabs.

(** [Math.round] rounds to the nearest integer, halves upwards. *)
Definition Qround_half_up (x : Q) : Z := Qfloor (x + (1 # 2)).
Definition Math_round := on_num (fun x => inject_Z (Qround_half_up x)).

(** [v | 0]: ToInt32, truncation toward zero then wrap-around to the
    signed 32-bit range; NaN gives 0. *)
Definition Qtruncate (x : Q) : Z := Z.quot (Qnum x) (Zpos (Qden x)).

Definition wrap32 (z : Z) : Z :=
  let m := z mod 2 ^ 32 in
  if 2 ^ 31 <=? m then m - 2 ^ 32 else m.

Definition ToInt32 (a : value) : value :=
  match ToNumber a with
  | Num x => int (wrap32 (Qtruncate x))
  | _ => int 0
  end.

(** Array element read [a[i]] for an integer index: [undefined] outside
    the array. *)
Definition aget (a : list Q) (i : Z) : value :=
  if i <? 0 then Undefined
  else match nth_error a (Z.to_nat i) with
       | Some q => Num q
       | None => Undefined
       end.

(** [a.length] *)
Definition alen {A} (a : list A) : Z := Z.of_nat (List.length a).

(** Array element read with an arbitrary value as the index: only a
    non-negative integer number names an element. *)
Definition aget_v (a : list Q) (i : value) : value :=
  match i with
  | Num q =>
      if Qeq_bool q (inject_Z (Qfloor q)) then aget a (Qfloor q) else Undefined
  | _ => Undefined
  end.

(** A thrown exception ends the running function and its callers. *)
Inductive exn : Type := TypeError.

Inductive result (A : Type) : Type :=
| Ok (a : A)
| Throw (e : exn).
Arguments Ok {A} a.
Arguments Throw {A} e.

Definition bind {A B} (m : result A) (k : A -> result B) : result B :=
  match m with
  | Ok a => k a
  | Throw e => Throw e
  end.

End JS.

Import JS.

Notation "x <- m ;; k" := (JS.bind m (fun x => k))
  (at level 61, m at next level, right associativity).

(* ===================================================================== *)
(** ** [DashGraph.binarySearch] (plot.js 1021-1036) *)
(* ===================================================================== *)

(** [Math.round((lo + hi) / 2)] on two integers. *)
Definition midpoint (lo hi : Z) : Z :=
  Qround_half_up (inject_Z (lo + hi) / 2).

(** The [while (hi - lo > 1)] loop; it returns the final [(lo, hi)]. *)
Equations? bsLoop (a : list Q) (x : value) (lo hi : Z) : Z * Z
  by wf (Z.to_nat (hi - lo)) Nat.lt :=
  bsLoop a x lo hi with Z_lt_dec 1 (hi - lo) => {
    | left _ =>
        if JS.le (aget a (midpoint lo hi)) x
        then bsLoop a x (midpoint lo hi) hi
        else bsLoop a x lo (midpoint lo hi)
    | right _ => (lo, hi) }.
Proof.
  all: assert (M : midpoint lo hi = (lo + hi + 1) / 2)
    by (unfold midpoint, Qround_half_up;
        assert (E : (inject_Z (lo + hi) / 2 + (1 # 2) == (lo + hi + 1) # 2)%Q)
          by (unfold Qeq, Qdiv, Qinv, Qplus, Qmult, inject_Z; simpl; lia);
        rewrite E; reflexivity);
    pose proof (Z.div_mod (lo + hi + 1) 2 ltac:(lia));
    pose proof (Z.mod_pos_bound (lo + hi + 1) 2 ltac:(lia));
    lia.
Qed.

(** [upper] is [false] when the caller omits the third argument. *)
Definition binarySearch (a : list Q) (x : value) (upper : bool) : Z :=
  let '(lo, hi) := bsLoop a x 0 (alen a - 1) in
  if upper then hi else lo.

(** A strictly increasing array, as a check on adjacent elements. *)
Fixpoint increasingb (a : list Q) : bool :=
  match a with
  | u :: t => match t with
              | v :: _ => Qlt_bool u v && increasingb t
              | [] => true
              end
  | [] => true
  end.

Definition increasing (a : list Q) : Prop := increasingb a = true.

(** [i] is the largest index with [a[i] <= t], in the code's comparison. *)
Definition largest_le (a : list Q) (t : Q) (i : Z) : Prop :=
  JS.le (aget a i) (Num t) = true /\
  forall j, JS.le (aget a j) (Num t) = true -> j <= i.

(* ===================================================================== *)
(** ** [DashGraph.Data] (plot.js 27-173) *)
(* ===================================================================== *)

(** The y argument: one number per x, or one tuple of numbers per x. *)
Inductive ydata : Type :=
| YFlat (l : list Q)
| YTuples (l : list (list Q)).

(** The colour filter object.  [index] and [colors] come from the caller;
    [curFiltInd] and [nextInd] are the cursor that [resetBounds],
    [setBounds] and [updateFilter] write.  The series stores the caller's
    object itself; here every series carries its own record, which agrees
    with the code as long as one filter object serves one series. *)
Record Filter : Type := mkFilter {
  index : list Q;
  colors : list string;
  curFiltInd : value;
  nextInd : value
}.

Record Options : Type := mkOptions {
  opt_plotType : option string;
  opt_filter : option Filter
}.

(** The third constructor argument as the caller may pass it. *)
Inductive optarg : Type :=
| OptUndefined
| OptNull
| OptObj (o : Options).

Record Data : Type := mkData {
  x : list Q;
  y : ydata;
  plotType : string;
  filter : option Filter;
  hasFilter : bool;
  hasColor : bool;
  startInd : Z;
  stopInd : Z
}.

(** What [getColor] hands to [strokeStyle]. *)
Inductive color : Type :=
| Color (s : string)
| ColorUndefined
| ColorNull.

Definition with_bounds (d : Data) (s e : Z) : Data :=
  mkData d.(x) d.(y) d.(plotType) d.(filter) d.(hasFilter) d.(hasColor) s e.

Definition with_filter (d : Data) (f : Filter) : Data :=
  mkData d.(x) d.(y) d.(plotType) (Some f) d.(hasFilter) d.(hasColor)
         d.(startInd) d.(stopInd).

Definition with_cursor (f : Filter) (cur next : value) : Filter :=
  mkFilter f.(index) f.(colors) cur next.

(** [options.plotType ? options.plotType : 'normal']: the empty string is
    falsy. *)
Definition truthy_string (s : option string) : bool :=
  match s with
  | Some EmptyString => false
  | Some _ => true
  | None => false
  end.

(** The constructor (plot.js 27-53).  Reading a property of [null]
    throws; [undefined] options are replaced by an empty object. *)
Definition DashGraph_Data (x0 : list Q) (y0 : ydata) (options : optarg)
  : result Data :=
  o <- match options with
       | OptUndefined => Ok (mkOptions None None)
       | OptNull => Throw TypeError
       | OptObj o => Ok o
       end ;;
  let pt := if truthy_string o.(opt_plotType)
            then match o.(opt_plotType) with Some s => s | None => "normal"%string end
            else "normal"%string in
  let has := match o.(opt_filter) with Some _ => true | None => false end in
  Ok (mkData x0 y0 pt o.(opt_filter) has has 0 (alen x0 - 1)).

(** [resetBounds] (plot.js 58-73). *)
Definition resetBounds (d : Data) : Data :=
  let d := with_bounds d 0 (alen d.(x) - 1) in
  match d.(filter) with
  | Some f =>
      let cur := int 0 in
      if JS.seq cur (int (alen f.(index) - 1))
      then with_filter d (with_cursor f cur (int (-1)))
      else with_filter d (with_cursor f cur (aget_v f.(index) (JS.add cur (int 1))))
  | None => d
  end.

(** [setBounds] (plot.js 81-96). *)
Definition setBounds (d : Data) (startTime stopTime : value) : Data :=
  let s := binarySearch d.(x) startTime false in
  let e := binarySearch d.(x) stopTime true in
  let d := with_bounds d s e in
  match d.(filter) with
  | Some f =>
      if JS.gt (int s) (aget f.(index) (alen f.(index) - 1))
      then with_filter d (with_cursor f (int (alen f.(index) - 1)) (int (-1)))
      else
        let cur := int (binarySearch f.(index) (int s) false) in
        with_filter d (with_cursor f cur (aget_v f.(index) (JS.add cur (int 1))))
  | None => d
  end.

(** [updateFilter] (plot.js 146-160); reading [this.filter.nextInd]
    throws when the series has no filter. *)
Definition updateFilter (d : Data) (ind : Z) : result (Data * bool) :=
  match d.(filter) with
  | None => Throw TypeError
  | Some f =>
      if JS.seq (int ind) f.(nextInd)
      then
        let cur := JS.add f.(curFiltInd) (int 1) in
        let next := if JS.lt cur (int (alen f.(index)))
                    then aget_v f.(index) (JS.add cur (int 1))
                    else int (-1) in
        Ok (with_filter d (with_cursor f cur next), true)
      else Ok (d, false)
  end.

(** [colors[curFiltInd]] *)
Definition color_at (cs : list string) (i : value) : color :=
  match i with
  | Num q =>
      if Qeq_bool q (inject_Z (Qfloor q)) && (0 <=? Qfloor q)
      then match nth_error cs (Z.to_nat (Qfloor q)) with
           | Some s => Color s
           | None => ColorUndefined
           end
      else ColorUndefined
  | _ => ColorUndefined
  end.

(** [getColor] (plot.js 166-173). *)
Definition getColor (d : Data) : color :=
  match d.(filter) with
  | Some f => color_at f.(colors) f.(curFiltInd)
  | None => ColorNull
  end.

(** The indices [lo, lo+1, ..., hi] a [for (i = lo; i <= hi; i++)] loop
    visits. *)
Definition Zrange (lo hi : Z) : list Z :=
  map (fun k => lo + Z.of_nat k) (List.seq 0 (Z.to_nat (hi + 1 - lo))).

(** The indices [renderData] hands to [updateFilter] for one curve:
    [for (i = data.startInd+1; i <= data.stopInd; i++)]. *)
Definition windowIndices (d : Data) : list Z :=
  Zrange (d.(startInd) + 1) d.(stopInd).

(** [updateFilter] called once per index of a list, in order; the answers
    are collected. *)
Fixpoint replayFilter (d : Data) (inds : list Z) : result (Data * list bool) :=
  match inds with
  | [] => Ok (d, [])
  | i :: rest =>
      r <- updateFilter d i ;;
      r' <- replayFilter (fst r) rest ;;
      Ok (fst r', snd r :: snd r')
  end.

Definition transitions (bs : list bool) : nat :=
  List.length (List.filter (fun b => b) bs).

(* ===================================================================== *)
(** ** [DashGraph.Plot]: state (plot.js 178-293) *)
(* ===================================================================== *)

Record Zoom : Type := mkZoom {
  xMin : value;
  xMax : value;
  yMin : value;
  yMax : value
}.

(** The 2d-context calls the plot issues, as a trace. *)
Inductive cmd : Type :=
| clearRect (x0 y0 w h : value)
| fillRect (x0 y0 w h : value)
| setFillStyle (s : string)
| setStrokeStyle (c : color)
| setLineWidth (w : value)
| beginPath
| moveTo (x0 y0 : value)
| lineTo (x0 y0 : value)
| stroke.

(** The fields of a [Plot] object that the engine reads and writes.  The
    DOM nodes, the canvases themselves and the label divs belong to the
    host page; of the two canvases only the calls made on their contexts
    are kept, oldest first.  [data] holds the series objects in the order
    of [addData]; a method that mutates a series writes the new record
    back at its place (one series object is assumed to be added once). *)
Record Plot : Type := mkPlot {
  width : Q;
  height : Q;
  xLabelSize : Q;
  yLabelSize : Q;
  heightBuffer : Q;
  minTickPixels : Q;
  plotColors : list string;
  colorInd : Z;
  data : list Data;
  zoom : Zoom;
  plotWidth : Q;
  plotXStart : Q;
  plotHeight : Q;
  plotYStart : Q;
  zooming : bool;
  xZooming : bool;
  yZooming : bool;
  rectZooming : bool;
  xZoomStart : value;
  yZoomStart : value;
  xScale : value;
  xBias : value;
  yScale : value;
  yBias : value;
  xTicks : list value;
  yTicks : list value;
  ctx : list cmd;
  ctxOverlay : list cmd
}.

Section PlotUpdates.
Variable p : Plot.

Definition set_colorInd (c : Z) : Plot :=
  mkPlot p.(width) p.(height) p.(xLabelSize) p.(yLabelSize) p.(heightBuffer)
    p.(minTickPixels) p.(plotColors) c p.(data) p.(zoom) p.(plotWidth)
    p.(plotXStart) p.(plotHeight) p.(plotYStart) p.(zooming) p.(xZooming)
    p.(yZooming) p.(rectZooming) p.(xZoomStart) p.(yZoomStart) p.(xScale)
    p.(xBias) p.(yScale) p.(yBias) p.(xTicks) p.(yTicks) p.(ctx) p.(ctxOverlay).

Definition set_data (ds : list Data) : Plot :=
  mkPlot p.(width) p.(height) p.(xLabelSize) p.(yLabelSize) p.(heightBuffer)
    p.(minTickPixels) p.(plotColors) p.(colorInd) ds p.(zoom) p.(plotWidth)
    p.(plotXStart) p.(plotHeight) p.(plotYStart) p.(zooming) p.(xZooming)
    p.(yZooming) p.(rectZooming) p.(xZoomStart) p.(yZoomStart) p.(xScale)
    p.(xBias) p.(yScale) p.(yBias) p.(xTicks) p.(yTicks) p.(ctx) p.(ctxOverlay).

Definition set_zoom (z : Zoom) : Plot :=
  mkPlot p.(width) p.(height) p.(xLabelSize) p.(yLabelSize) p.(heightBuffer)
    p.(minTickPixels) p.(plotColors) p.(colorInd) p.(data) z p.(plotWidth)
    p.(plotXStart) p.(plotHeight) p.(plotYStart) p.(zooming) p.(xZooming)
    p.(yZooming) p.(rectZooming) p.(xZoomStart) p.(yZoomStart) p.(xScale)
    p.(xBias) p.(yScale) p.(yBias) p.(xTicks) p.(yTicks) p.(ctx) p.(ctxOverlay).

(** [zooming], [xZooming], [yZooming], [rectZooming] *)
Definition set_gesture (z xz yz rz : bool) : Plot :=
  mkPlot p.(width) p.(height) p.(xLabelSize) p.(yLabelSize) p.(heightBuffer)
    p.(minTickPixels) p.(plotColors) p.(colorInd) p.(data) p.(zoom) p.(plotWidth)
    p.(plotXStart) p.(plotHeight) p.(plotYStart) z xz yz rz
    p.(xZoomStart) p.(yZoomStart) p.(xScale)
    p.(xBias) p.(yScale) p.(yBias) p.(xTicks) p.(yTicks) p.(ctx) p.(ctxOverlay).

Definition set_zoomStart (xs ys : value) : Plot :=
  mkPlot p.(width) p.(height) p.(xLabelSize) p.(yLabelSize) p.(heightBuffer)
    p.(minTickPixels) p.(plotColors) p.(colorInd) p.(data) p.(zoom) p.(plotWidth)
    p.(plotXStart) p.(plotHeight) p.(plotYStart) p.(zooming) p.(xZooming)
    p.(yZooming) p.(rectZooming) xs ys p.(xScale)
    p.(xBias) p.(yScale) p.(yBias) p.(xTicks) p.(yTicks) p.(ctx) p.(ctxOverlay).

Definition set_xScale (sc bias : value) : Plot :=
  mkPlot p.(width) p.(height) p.(xLabelSize) p.(yLabelSize) p.(heightBuffer)
    p.(minTickPixels) p.(plotColors) p.(colorInd) p.(data) p.(zoom) p.(plotWidth)
    p.(plotXStart) p.(plotHeight) p.(plotYStart) p.(zooming) p.(xZooming)
    p.(yZooming) p.(rectZooming) p.(xZoomStart) p.(yZoomStart) sc
    bias p.(yScale) p.(yBias) p.(xTicks) p.(yTicks) p.(ctx) p.(ctxOverlay).

Definition set_yScale (sc bias : value) : Plot :=
  mkPlot p.(width) p.(height) p.(xLabelSize) p.(yLabelSize) p.(heightBuffer)
    p.(minTickPixels) p.(plotColors) p.(colorInd) p.(data) p.(zoom) p.(plotWidth)
    p.(plotXStart) p.(plotHeight) p.(plotYStart) p.(zooming) p.(xZooming)
    p.(yZooming) p.(rectZooming) p.(xZoomStart) p.(yZoomStart) p.(xScale)
    p.(xBias) sc bias p.(xTicks) p.(yTicks) p.(ctx) p.(ctxOverlay).

Definition set_xTicks (t : list value) : Plot :=
  mkPlot p.(width) p.(height) p.(xLabelSize) p.(yLabelSize) p.(heightBuffer)
    p.(minTickPixels) p.(plotColors) p.(colorInd) p.(data) p.(zoom) p.(plotWidth)
    p.(plotXStart) p.(plotHeight) p.(plotYStart) p.(zooming) p.(xZooming)
    p.(yZooming) p.(rectZooming) p.(xZoomStart) p.(yZoomStart) p.(xScale)
    p.(xBias) p.(yScale) p.(yBias) t p.(yTicks) p.(ctx) p.(ctxOverlay).

Definition set_yTicks (t : list value) : Plot :=
  mkPlot p.(width) p.(height) p.(xLabelSize) p.(yLabelSize) p.(heightBuffer)
    p.(minTickPixels) p.(plotColors) p.(colorInd) p.(data) p.(zoom) p.(plotWidth)
    p.(plotXStart) p.(plotHeight) p.(plotYStart) p.(zooming) p.(xZooming)
    p.(yZooming) p.(rectZooming) p.(xZoomStart) p.(yZoomStart) p.(xScale)
    p.(xBias) p.(yScale) p.(yBias) p.(xTicks) t p.(ctx) p.(ctxOverlay).

(** Calls on [this.ctx] are appended to the trace. *)
Definition emit (cs : list cmd) : Plot :=
  mkPlot p.(width) p.(height) p.(xLabelSize) p.(yLabelSize) p.(heightBuffer)
    p.(minTickPixels) p.(plotColors) p.(colorInd) p.(data) p.(zoom) p.(plotWidth)
    p.(plotXStart) p.(plotHeight) p.(plotYStart) p.(zooming) p.(xZooming)
    p.(yZooming) p.(rectZooming) p.(xZoomStart) p.(yZoomStart) p.(xScale)
    p.(xBias) p.(yScale) p.(yBias) p.(xTicks) p.(yTicks) (p.(ctx) ++ cs)
    p.(ctxOverlay).

(** Calls on [this.ctxOverlay]. *)
Definition emitOverlay (cs : list cmd) : Plot :=
  mkPlot p.(width) p.(height) p.(xLabelSize) p.(yLabelSize) p.(heightBuffer)
    p.(minTickPixels) p.(plotColors) p.(colorInd) p.(data) p.(zoom) p.(plotWidth)
    p.(plotXStart) p.(plotHeight) p.(plotYStart) p.(zooming) p.(xZooming)
    p.(yZooming) p.(rectZooming) p.(xZoomStart) p.(yZoomStart) p.(xScale)
    p.(xBias) p.(yScale) p.(yBias) p.(xTicks) p.(yTicks) p.(ctx)
    (p.(ctxOverlay) ++ cs).
End PlotUpdates.

Record PlotOpts : Type := mkPlotOpts {
  opt_width : option Q;
  opt_height : option Q;
  opt_xLabelSize : option Q;
  opt_yLabelSize : option Q;
  opt_heightBuffer : option Q;
  opt_minTickPixels : option Q
}.

(** [opts.f ? opts.f : dflt]: an absent or zero option takes the default. *)
Definition opt_or (o : option Q) (dflt : Q) : Q :=
  match o with
  | Some q => if Qeq_bool q 0 then dflt else q
  | None => dflt
  end.

(** The constructor followed by [initialize] (plot.js 178-293), without the
    DOM set-up. *)
Definition DashGraph_Plot (opts : PlotOpts) : Plot :=
  let w := opt_or opts.(opt_width) 400 in
  let h := opt_or opts.(opt_height) 300 in
  let xl := opt_or opts.(opt_xLabelSize) 50 in
  let yl := opt_or opts.(opt_yLabelSize) 50 in
  mkPlot w h xl yl
    (opt_or opts.(opt_heightBuffer) 20)
    (opt_or opts.(opt_minTickPixels) 40)
    ["#0000AA"; "#00AA00"; "#AA0000"; "#AAAA00"; "#AA00AA"; "#00AAAA"]%string
    0 [] (mkZoom Null Null Null Null)
    (Qred (w - xl)) xl (Qred (h - yl)) 0
    false false false false
    Undefined Undefined
    Undefined Undefined Undefined Undefined
    [] [] [] [].

(** [addData] (plot.js 306-308) *)
Definition addData (p : Plot) (d : Data) : Plot :=
  set_data p (p.(data) ++ [d]).

(** [clearZoom] (plot.js 744-749) *)
Definition clearZoom (p : Plot) : Plot :=
  set_zoom p (mkZoom Null Null Null Null).

(* ===================================================================== *)
(** ** Scale maps (plot.js 945-971) *)
(* ===================================================================== *)

Definition getXCanvasPos (p : Plot) (v : value) : value :=
  JS.add (JS.mul v p.(xScale)) p.(xBias).

Definition getXPixelPos (p : Plot) (v : value) : value :=
  JS.div (JS.sub v p.(xBias)) p.(xScale).

Definition getYCanvasPos (p : Plot) (v : value) : value :=
  JS.add (JS.mul v p.(yScale)) p.(yBias).

Definition getYPixelPos (p : Plot) (v : value) : value :=
  JS.div (JS.sub v p.(yBias)) p.(yScale).

(** [DashGraph.interpolate] (plot.js 1101-1103) *)
Definition interpolate (x0 y0 x1 y1 x2 : value) : value :=
  JS.add y0 (JS.div (JS.mul (JS.sub x2 x0) (JS.sub y1 y0)) (JS.sub x1 x0)).

(* ===================================================================== *)
(** ** [getTicks] (plot.js 976-1006) *)
(* ===================================================================== *)

(** [Math.floor(Math.log(q) / Math.LN10)] for a positive rational, computed
    exactly: the integer [k] with [10^k <= q < 10^(k+1)]. *)
Fixpoint log10_up (fuel : nat) (q : Q) (k : Z) : Z :=
  match fuel with
  | O => k
  | S f => if Qle_bool 10 q then log10_up f (q / 10) (k + 1) else k
  end.

Fixpoint log10_down (fuel : nat) (q : Q) (k : Z) : Z :=
  match fuel with
  | O => k
  | S f => if Qle_bool 1 q then k else log10_down f (q * 10) (k - 1)
  end.

Definition Qfloor_log10 (q : Q) : Z :=
  if Qle_bool 1 q
  then log10_up (S (Z.to_nat (Z.log2 (Qnum q)))) q 0
  else log10_down (S (Pos.to_nat (Pos.size (Qden q)))) q 0.

(** The logarithm of zero or of a negative number is not a rational. *)
Definition floor_log10 (v : value) : value :=
  match ToNumber v with
  | Num q => if Qlt_bool 0 q then int (Qfloor_log10 q) else NaN
  | _ => NaN
  end.

(** [Math.pow(10, k)] for an integer [k]. *)
Definition pow10 (v : value) : value :=
  match ToNumber v with
  | Num q => if Qeq_bool q (inject_Z (Qfloor q))
             then num (Qpower 10 (Qfloor q)) else NaN
  | _ => NaN
  end.

(** The variables the multiplier loop leaves behind. *)
Record TickVars : Type := mkTickVars {
  t_scale : value;
  t_low : value;
  t_high : value;
  t_nTicks : value;
  t_spacing : value
}.

Definition mults : list Q := [1 # 2; 1; 2; 5]%Q.

(** [for (i = 0; i < mults.length; i++) { ...; if (spacing > minTickPixels) break; }] *)
Fixpoint multLoop (minTick : Q) (baseScale minVal maxVal pixels : value)
         (ms : list Q) (st : TickVars) : TickVars :=
  match ms with
  | [] => st
  | m :: rest =>
      let scale := JS.mul baseScale (Num m) in
      let low := JS.mul (Math_floor (JS.div minVal scale)) scale in
      let high := JS.mul (Math_ceil (JS.div maxVal scale)) scale in
      let nTicks := JS.div (Math_abs (JS.sub high low)) scale in
      let spacing := JS.div pixels nTicks in
      let st' := mkTickVars scale low high nTicks spacing in
      if JS.gt spacing (Num minTick) then st'
      else multLoop minTick baseScale minVal maxVal pixels rest st'
  end.

(** The integers [i >= 0] with [i < n], ascending. *)
Definition indicesBelow (n : value) : list Z :=
  match ToNumber n with
  | Num q => Zrange 0 (Qceiling q - 1)
  | _ => []
  end.

(** The state after the multiplier loop (plot.js 982-995). *)
Definition tickVars (p : Plot) (minVal maxVal pixels : value) : TickVars :=
  let basePower := floor_log10 (JS.sub maxVal minVal) in
  let baseScale := pow10 basePower in
  multLoop p.(minTickPixels) baseScale minVal maxVal pixels mults
           (mkTickVars Undefined Undefined Undefined Undefined Undefined).

(** The tick loop [for (i = 0; i < nTicks; i++)] (plot.js 998-1005). *)
Definition getTicks (p : Plot) (minVal maxVal pixels : value) : list value :=
  let st := tickVars p minVal maxVal pixels in
  flat_map (fun i =>
              let val := JS.add st.(t_low) (JS.mul (int i) st.(t_scale)) in
              if JS.ge val minVal && JS.le val maxVal then [val] else [])
           (indicesBelow st.(t_nTicks)).

(* ===================================================================== *)
(** ** [getYBounds] (plot.js 102-137) *)
(* ===================================================================== *)

(** [this.y[i]] for a tuple-valued series. *)
Definition tuple_at (l : list (list Q)) (i : Z) : option (list Q) :=
  if i <? 0 then None else nth_error l (Z.to_nat i).

(** [if (val < yMin) yMin = val; else if (val > yMax) yMax = val;] *)
Definition widen (val : value) (b : value * value) : value * value :=
  if JS.lt val (fst b) then (val, snd b)
  else if JS.gt val (snd b) then (fst b, val)
  else b.

(** One visited row of a tuple-valued series: slots [0 .. numElems-1] of
    [this.y[i]]; reading a slot of a missing row throws. *)
Definition widenRow (l : list (list Q)) (numElems : Z) (b : value * value) (i : Z)
  : result (value * value) :=
  match tuple_at l i with
  | Some t =>
      Ok (fold_left (fun b j => widen (aget t j) b) (Zrange 0 (numElems - 1)) b)
  | None =>
      if 0 <? numElems then Throw TypeError else Ok b
  end.

Fixpoint widenRows (l : list (list Q)) (numElems : Z) (b : value * value)
         (rows : list Z) : result (value * value) :=
  match rows with
  | [] => Ok b
  | i :: rest =>
      b' <- widenRow l numElems b i ;;
      widenRows l numElems b' rest
  end.

(** When [this.y[startInd]] is not an array the flat branch runs; for a
    tuple-valued series that happens only when the row is missing, and
    then both extrema start [undefined] and no comparison changes them. *)
Definition getYBounds (d : Data) : result (value * value) :=
  match d.(y) with
  | YTuples l =>
      match tuple_at l d.(startInd) with
      | Some t0 =>
          widenRows l (alen t0) (aget t0 0, aget t0 0)
                    (Zrange d.(startInd) d.(stopInd))
      | None => Ok (Undefined, Undefined)
      end
  | YFlat l =>
      Ok (fold_left (fun b i => widen (aget l i) b)
                    (Zrange (d.(startInd) + 1) d.(stopInd))
                    (aget l d.(startInd), aget l d.(startInd)))
  end.

(* ===================================================================== *)
(** ** [preprocess] (plot.js 340-440) *)
(* ===================================================================== *)

(** A [Plot] object has no [startInd] or [stopInd] property: the reads
    [this.startInd] and [this.stopInd] inside [preprocess] yield
    [undefined]. *)
Definition Plot_startInd (p : Plot) : value := Undefined.
Definition Plot_stopInd (p : Plot) : value := Undefined.

(** The x-domain found so far, with the series already reset. *)
Record XDomain : Type := mkXDomain {
  dom_data : list Data;
  dom_xMin : value;
  dom_xMax : value
}.

(** Body of [for (i = 1; i < this.data.length; i++)] (plot.js 368-377). *)
Definition mergeSeries (p : Plot) (acc : XDomain) (d : Data) : XDomain :=
  let d := resetBounds d in
  let xMin' := if JS.gt acc.(dom_xMin) (aget d.(x) d.(startInd))
               then aget_v d.(x) (Plot_startInd p)
               else acc.(dom_xMin) in
  let xMax' := if JS.lt acc.(dom_xMax) (aget d.(x) d.(stopInd))
               then aget_v d.(x) (Plot_stopInd p)
               else acc.(dom_xMax) in
  mkXDomain (acc.(dom_data) ++ [d]) xMin' xMax'.

(** Lines 358-386: the x-domain and the window of every series.  With no
    series at all, [this.data[0].resetBounds()] throws. *)
Definition xDomain (p : Plot) : result XDomain :=
  if JS.seq p.(zoom).(xMin) Null then
    match p.(data) with
    | [] => Throw TypeError
    | d0 :: rest =>
        let d0 := resetBounds d0 in
        Ok (fold_left (mergeSeries p) rest
              (mkXDomain [d0] (aget d0.(x) d0.(startInd)) (aget d0.(x) d0.(stopInd))))
    end
  else
    Ok (mkXDomain
          (map (fun d => setBounds d p.(zoom).(xMin) p.(zoom).(xMax)) p.(data))
          p.(zoom).(xMin) p.(zoom).(xMax)).

(** Lines 411-425: the merged y-extrema of all series. *)
Fixpoint yDomain (ds : list Data) (yMn yMx : value) : result (value * value) :=
  match ds with
  | [] => Ok (yMn, yMx)
  | d :: rest =>
      yLimits <- getYBounds d ;;
      if JS.seq yMn Undefined
      then yDomain rest (fst yLimits) (snd yLimits)
      else
        let yMn' := if JS.gt yMn (fst yLimits) then fst yLimits else yMn in
        let yMx' := if JS.lt yMx (snd yLimits) then snd yLimits else yMx in
        yDomain rest yMn' yMx'
  end.

Definition half : value := Num (1 # 2).

Definition preprocess (p : Plot) : result Plot :=
  dom <- xDomain p ;;
  let p := set_data p dom.(dom_data) in
  let xMn := dom.(dom_xMin) in
  let xMx := dom.(dom_xMax) in
  let xs := JS.div (Num p.(plotWidth)) (JS.sub xMx xMn) in
  let p := set_xScale p xs (JS.sub (Num p.(plotXStart)) (JS.mul xs xMn)) in
  let p := set_xTicks p (getTicks p xMn xMx (Num p.(plotWidth))) in
  pix <-
    (if negb (JS.seq p.(zoom).(yMin) Null) then
       let zMn := p.(zoom).(yMin) in
       let zMx := p.(zoom).(yMax) in
       let ys := JS.div (Num p.(plotHeight)) (JS.sub zMn zMx) in
       let p := set_yScale p ys
                  (JS.sub (JS.div (Num p.(plotHeight)) (int 2))
                          (JS.mul (JS.mul ys (JS.add zMx zMn)) half)) in
       Ok (p, getYPixelPos p (getYCanvasPos p zMn),
              getYPixelPos p (getYCanvasPos p zMx))
     else
       ext <- yDomain p.(data) Undefined Undefined ;;
       let yMn := fst ext in
       let yMx := snd ext in
       let ys := JS.div (JS.sub (Num p.(plotHeight))
                                (JS.mul (int 2) (Num p.(heightBuffer))))
                        (JS.sub yMn yMx) in
       let p := set_yScale p ys
                  (JS.sub (JS.div (Num p.(plotHeight)) (int 2))
                          (JS.mul (JS.mul ys (JS.add yMx yMn)) half)) in
       Ok (p, getYPixelPos p (JS.add (getYCanvasPos p yMn) (Num p.(heightBuffer))),
              getYPixelPos p (JS.sub (getYCanvasPos p yMx) (Num p.(heightBuffer))))) ;;
  let '(p, yPixMin, yPixMax) := pix in
  Ok (set_yTicks p (getTicks p yPixMin yPixMax (Num p.(plotHeight)))).

(* ===================================================================== *)
(** ** [prerender], [renderAxes] (plot.js 445-495) *)
(* ===================================================================== *)

(** [clearOverlay] (plot.js 937-941) *)
Definition clearOverlay (p : Plot) : Plot :=
  emitOverlay p [clearRect (int 0) (int 0) (Num p.(width)) (Num p.(height))].

(** [prerender]; hiding the label divs is left to the host page. *)
Definition prerender (p : Plot) : Plot :=
  let p := emit p [clearRect (int 0) (int 0) (Num p.(width)) (Num p.(height))] in
  let p := clearOverlay p in
  set_colorInd p 0.

Definition renderAxes (p : Plot) : Plot :=
  let grid := Color "#DDDDDD" in
  let p := emit p [setStrokeStyle grid; beginPath] in
  let p := emit p
    (flat_map (fun t =>
       let val := JS.add (getXCanvasPos p t) half in
       [moveTo val (JS.sub (Num p.(plotYStart)) half);
        lineTo val (JS.sub (Num p.(plotHeight)) half)]) p.(xTicks)) in
  let p := emit p [stroke; setStrokeStyle grid; beginPath] in
  let p := emit p
    (flat_map (fun t =>
       let val := JS.sub (ToInt32 (getYCanvasPos p t)) half in
       [moveTo (JS.add (Num p.(plotXStart)) half) val;
        lineTo (JS.add (Num p.(width)) half) val]) p.(yTicks)) in
  emit p [stroke; setStrokeStyle (Color "#999999"); setLineWidth (int 1);
          beginPath;
          moveTo (JS.add (Num p.(plotXStart)) half) (JS.sub (Num p.(plotYStart)) half);
          lineTo (JS.add (Num p.(plotXStart)) half) (JS.sub (Num p.(plotHeight)) half);
          lineTo (Num p.(width)) (JS.sub (Num p.(plotHeight)) half);
          stroke].

(* ===================================================================== *)
(** ** [renderData] (plot.js 569-739) *)
(* ===================================================================== *)

(** [Plot.prototype.getColor] (plot.js 1011-1016) *)
Definition Plot_getColor (p : Plot) : Plot * color :=
  let p := if p.(colorInd) =? alen p.(plotColors) then set_colorInd p 0 else p in
  (set_colorInd p (p.(colorInd) + 1),
   color_at p.(plotColors) (int p.(colorInd))).

(** [isArray(data.y[data.startInd])] *)
Definition isArrData (d : Data) : bool :=
  match d.(y) with
  | YTuples l => match tuple_at l d.(startInd) with Some _ => true | None => false end
  | YFlat _ => false
  end.

(** [lenData]: the number of curves of the series. *)
Definition lenData (d : Data) : Z :=
  match d.(y) with
  | YTuples l => match tuple_at l d.(startInd) with Some t => alen t | None => 1 end
  | YFlat _ => 1
  end.

Definition quick (d : Data) : bool := String.eqb d.(plotType) "quick".

(** The per-series closure [getX]. *)
Definition getX (p : Plot) (d : Data) (v : value) : value :=
  if quick d then ToInt32 (getXCanvasPos p v) else getXCanvasPos p v.

(** An array where a number is expected is converted through its string
    form: empty gives 0, a single element gives that element. *)
Definition array_ToNumber (t : list Q) : value :=
  match t with
  | [] => Num 0
  | [q] => Num q
  | _ => NaN
  end.

(** The per-series closure [getY] applied to [data.y[i]] and the curve
    number [j].  For array data it reads [val[j]], which throws when the
    row [data.y[i]] is missing. *)
Definition getY (p : Plot) (d : Data) (i j : Z) : result value :=
  v <- match d.(y) with
       | YFlat l => Ok (aget l i)
       | YTuples l =>
           if isArrData d
           then match tuple_at l i with
                | Some t => Ok (aget t j)
                | None => Throw TypeError
                end
           else match tuple_at l i with
                | Some t => Ok (array_ToNumber t)
                | None => Ok Undefined
                end
       end ;;
  Ok (if quick d then ToInt32 (getYCanvasPos p v) else getYCanvasPos p v).

(** The variables one curve's point loop carries. *)
Record Pen : Type := mkPen {
  pen_plot : Plot;
  pen_data : Data;
  xPixValLast : value;
  yPixValLast : value;
  yTooHigh : bool;
  yTooLow : bool;
  updateColor : bool
}.

Definition tenth : value := Num (1 # 10).

(** How one pass through the loop body ends. *)
Inductive flow : Type := Next | Break.

(** The body of [for (i = data.startInd+1; i <= data.stopInd; i++)]
    (plot.js 652-734) for curve [j]. *)
Definition drawPoint (j : Z) (s : Pen) (i : Z) : result (Pen * flow) :=
  let p := s.(pen_plot) in
  let d := s.(pen_data) in
  let xPixVal := getX p d (aget d.(x) i) in
  yPixVal <- getY p d i j ;;
  upd <- (if d.(hasFilter)
          then r <- updateFilter d i ;;
               Ok (fst r, if snd r then true else s.(updateColor))
          else Ok (d, s.(updateColor))) ;;
  let d := fst upd in
  let uc := snd upd in
  let xl := s.(xPixValLast) in
  let yl := s.(yPixValLast) in
  if JS.lt (Math_abs (JS.sub xPixVal xl)) tenth
     && JS.lt (Math_abs (JS.sub yPixVal yl)) tenth
  then Ok (mkPen p d xl yl s.(yTooHigh) s.(yTooLow) uc, Next)
  else if JS.gt xPixVal (Num p.(width))
  then
    let yPixVal := interpolate xl yl xPixVal yPixVal (Num p.(width)) in
    let xPixVal := Num p.(width) in
    Ok (mkPen (emit p [lineTo xPixVal yPixVal]) d xl yl
              s.(yTooHigh) s.(yTooLow) uc, Break)
  else if JS.lt yPixVal (Num p.(plotYStart))
  then
    let p := if negb s.(yTooHigh)
             then emit p [lineTo (interpolate yl xl yPixVal xPixVal (Num p.(plotYStart)))
                                 (Num p.(plotYStart))]
             else p in
    Ok (mkPen p d xPixVal yPixVal true s.(yTooLow) uc, Next)
  else if JS.gt yPixVal (Num p.(plotHeight))
  then
    let p := if negb s.(yTooLow)
             then emit p [lineTo (interpolate yl xl yPixVal xPixVal (Num p.(plotHeight)))
                                 (Num p.(plotHeight))]
             else p in
    Ok (mkPen p d xPixVal yPixVal s.(yTooHigh) true uc, Next)
  else
    let p := if s.(yTooHigh)
             then emit p [moveTo (interpolate yl xl yPixVal xPixVal (Num p.(plotYStart)))
                                 (Num p.(plotYStart))]
             else if s.(yTooLow)
             then emit p [moveTo (interpolate yl xl yPixVal xPixVal (Num p.(plotHeight)))
                                 (Num p.(plotHeight))]
             else p in
    let high := false in
    let low := if s.(yTooHigh) then s.(yTooLow) else false in
    let p := emit p [lineTo xPixVal yPixVal] in
    let p := if uc
             then emit p [stroke; beginPath; setStrokeStyle (getColor d);
                          moveTo xPixVal yPixVal]
             else p in
    Ok (mkPen p d xPixVal yPixVal high low false, Next).

Fixpoint drawPoints (j : Z) (s : Pen) (inds : list Z) : result Pen :=
  match inds with
  | [] => Ok s
  | i :: rest =>
      r <- drawPoint j s i ;;
      match snd r with
      | Next => drawPoints j (fst r) rest
      | Break => Ok (fst r)
      end
  end.

(** One pass of [while (lenData !== 0)] (plot.js 624-737): curve [j] of
    the series.  The state is the plot, the series and [updateColor]. *)
Definition drawCurve (st : Plot * Data * bool) (j : Z) : result (Plot * Data * bool) :=
  let '(p, d, uc) := st in
  let p := emit p [beginPath] in
  let '(p, c) := if d.(hasColor) then (p, getColor d) else Plot_getColor p in
  let p := emit p [setStrokeStyle c] in
  let xl := getX p d (aget d.(x) d.(startInd)) in
  yl <- getY p d d.(startInd) j ;;
  first <-
    (if JS.lt xl (Num p.(plotXStart))
     then
       let tempX := getX p d (aget d.(x) (d.(startInd) + 1)) in
       tempY <- getY p d (d.(startInd) + 1) j ;;
       Ok (Num p.(plotXStart), interpolate xl yl tempX tempY (Num p.(plotXStart)))
     else Ok (xl, yl)) ;;
  let p := emit p [moveTo (fst first) (snd first)] in
  s <- drawPoints j (mkPen p d (fst first) (snd first) false false uc)
                  (windowIndices d) ;;
  Ok (emit s.(pen_plot) [stroke], s.(pen_data), s.(updateColor)).

Fixpoint drawCurves (st : Plot * Data * bool) (js : list Z)
  : result (Plot * Data * bool) :=
  match js with
  | [] => Ok st
  | j :: rest => st' <- drawCurve st j ;; drawCurves st' rest
  end.

(** The bounds check of plot.js 617: the series is passed over when it
    holds. *)
Definition outOfBounds (p : Plot) (d : Data) : bool :=
  JS.gt (aget d.(x) 0) p.(zoom).(xMax)
  || JS.lt (aget d.(x) (alen d.(x) - 1)) p.(zoom).(xMin).

(** One pass of [for (k = 0; k < this.data.length; k++)].  [done] holds
    the series already visited, in order. *)
Definition renderSeries (st : Plot * list Data * bool) (d : Data)
  : result (Plot * list Data * bool) :=
  let '(p, done, uc) := st in
  if outOfBounds p d then Ok (p, done ++ [d], uc)
  else
    r <- drawCurves (p, d, uc) (Zrange 0 (lenData d - 1)) ;;
    let '(p, d, uc) := r in
    Ok (p, done ++ [d], uc).

Fixpoint renderAll (st : Plot * list Data * bool) (ds : list Data)
  : result (Plot * list Data * bool) :=
  match ds with
  | [] => Ok st
  | d :: rest => st' <- renderSeries st d ;; renderAll st' rest
  end.

Definition renderData (p : Plot) : result Plot :=
  r <- renderAll (p, [], false) p.(data) ;;
  let '(p, ds, _) := r in
  Ok (set_data p ds).

(** [render] (plot.js 320-335); [renderLabels] only positions label divs
    of the host page. *)
Definition render (p : Plot) : result Plot :=
  p <- preprocess p ;;
  renderData (renderAxes (prerender p)).

(* ===================================================================== *)
(** ** The zoom gesture (plot.js 753-856, 911-930) *)
(* ===================================================================== *)

(** A pointer event, as [eventToCanvasX] and [eventToCanvasY] report it:
    the position relative to the canvas. *)
Record Event : Type := mkEvent {
  canvasX : Q;
  canvasY : Q
}.

Definition zoomFill : string := "rgba(128,128,128,0.33)".

Definition drawXZoom (p : Plot) (xPos : value) : Plot :=
  let p := clearOverlay p in
  emitOverlay p [setFillStyle zoomFill;
                 fillRect p.(xZoomStart) (Num p.(plotYStart))
                          (JS.sub xPos p.(xZoomStart)) (Num p.(plotHeight))].

Definition drawYZoom (p : Plot) (yPos : value) : Plot :=
  let p := clearOverlay p in
  emitOverlay p [setFillStyle zoomFill;
                 fillRect (Num p.(plotXStart)) p.(yZoomStart)
                          (JS.add (Num p.(plotXStart)) (Num p.(plotWidth)))
                          (JS.sub yPos p.(yZoomStart))].

Definition onmousedown (p : Plot) (e : Event) : Plot :=
  let p := set_zoomStart p (Num e.(canvasX)) (Num e.(canvasY)) in
  set_gesture p true p.(xZooming) p.(yZooming) p.(rectZooming).

(** The two drag distances [onmousemove] compares. *)
Definition xDist (p : Plot) (e : Event) : value :=
  Math_abs (JS.sub (Num e.(canvasX)) p.(xZoomStart)).

Definition yDist (p : Plot) (e : Event) : value :=
  Math_abs (JS.sub (Num e.(canvasY)) p.(yZoomStart)).

Definition onmousemove (p : Plot) (e : Event) : Plot :=
  if p.(zooming) then
    let xPos := Num e.(canvasX) in
    let yPos := Num e.(canvasY) in
    if JS.gt (xDist p e) (yDist p e) && JS.gt (xDist p e) (int 1) then
      let p := set_gesture p p.(zooming) true false p.(rectZooming) in
      let xPos := if JS.lt xPos (Num p.(plotXStart)) then Num p.(plotXStart) else xPos in
      drawXZoom p xPos
    else if JS.gt (yDist p e) (xDist p e) && JS.gt (yDist p e) (int 1) then
      let p := set_gesture p p.(zooming) false true p.(rectZooming) in
      let yPos := if JS.gt yPos (Num p.(plotHeight)) then Num p.(plotHeight) else yPos in
      drawYZoom p yPos
    else p
  else p.

Definition onmouseup (p : Plot) (e : Event) : result Plot :=
  if p.(zooming) then
    let p := set_gesture p false p.(xZooming) p.(yZooming) p.(rectZooming) in
    if p.(xZooming) then
      let p := set_gesture p p.(zooming) false p.(yZooming) p.(rectZooming) in
      let xPos := Num e.(canvasX) in
      let z := p.(zoom) in
      let p :=
        if JS.gt xPos p.(xZoomStart)
        then set_zoom p (mkZoom (getXPixelPos p p.(xZoomStart)) (getXPixelPos p xPos)
                                z.(yMin) z.(yMax))
        else if JS.lt xPos p.(xZoomStart)
        then set_zoom p (mkZoom (getXPixelPos p xPos) (getXPixelPos p p.(xZoomStart))
                                z.(yMin) z.(yMax))
        else p in
      render p
    else if p.(yZooming) then
      let p := set_gesture p p.(zooming) p.(xZooming) false p.(rectZooming) in
      let yPos := Num e.(canvasY) in
      let z := p.(zoom) in
      let p :=
        if JS.gt yPos p.(yZoomStart)
        then set_zoom p (mkZoom z.(xMin) z.(xMax)
                                (getYPixelPos p yPos) (getYPixelPos p p.(yZoomStart)))
        else if JS.lt yPos p.(yZoomStart)
        then set_zoom p (mkZoom z.(xMin) z.(xMax)
                                (getYPixelPos p p.(yZoomStart)) (getYPixelPos p yPos))
        else p in
      render p
    else Ok p
  else Ok p.

Definition ondblclick (p : Plot) (e : Event) : result Plot :=
  render (clearZoom p).

Definition onmouseout (p : Plot) (e : Event) : Plot :=
  let p := clearOverlay p in
  set_gesture p false false false false.

(* ===================================================================== *)
(** ** Sample objects *)
(* ===================================================================== *)

(** A plot built with the default options. *)
Definition plot0 : Plot :=
  DashGraph_Plot (mkPlotOpts None None None None None None).

(** A filter with boundaries 0, 2, 4 and three colours, as the caller
    hands it over (no cursor yet). *)
Definition filter024 : Filter :=
  mkFilter [0; 2; 4]%Q ["red"; "green"; "blue"]%string Undefined Undefined.

(** A flat series without filter, as the constructor builds it. *)
Definition series (xs ys : list Q) : Data :=
  mkData xs (YFlat ys) "normal" None false false 0 (alen xs - 1).

(** Five points carrying [filter024]. *)
Definition series5 : Data :=
  mkData [0; 1; 2; 3; 4]%Q (YFlat [1; 3; 2; 5; 4]%Q) "normal"
         (Some filter024) true true 0 4.

(** The plot a successful call leaves behind; [plot0] stands in after a
    throw. *)
Definition rendered (r : result Plot) : Plot :=
  match r with
  | Ok p => p
  | Throw _ => plot0
  end.

(** [plot0] with one five-point series, rendered once in auto-fit mode. *)
Definition plot1 : Plot :=
  rendered (render (addData plot0 (series [0; 1; 2; 3; 4]%Q [1; 3; 2; 5; 4]%Q))).

(** Two series in auto-fit mode, the second one starting earlier. *)
Definition twoSeries : Plot :=
  addData (addData plot0 (series [5; 6]%Q [1; 3]%Q)) (series [1; 2]%Q [1; 5]%Q).

(** One series whose x values are all positive. *)
Definition positiveSeries : Plot :=
  addData plot0 (series [1; 2; 3; 4]%Q [1; 3; 2; 5]%Q).

(* ===================================================================== *)
(** ** Predicates of the statements *)
(* ===================================================================== *)

(** The three well-formedness conditions of a series, as a check. *)
Definition sameLength (xs : list Q) (ys : ydata) : bool :=
  match ys with
  | YFlat l => alen xs =? alen l
  | YTuples l => alen xs =? alen l
  end.

Definition uniformWidth (ys : ydata) : bool :=
  match ys with
  | YFlat _ => true
  | YTuples [] => true
  | YTuples (t0 :: rest) => forallb (fun t => alen t =? alen t0) rest
  end.

Definition validSeries (xs : list Q) (ys : ydata) : bool :=
  sameLength xs ys && increasingb xs && uniformWidth ys.

Definition rejected (xs : list Q) (ys : ydata) (o : optarg) : Prop :=
  exists e, DashGraph_Data xs ys o = Throw e.

(** The state of the cursor between calls: it sits on segment [k] of a
    filter with the boundaries and colours of [f0], and [nextInd] is the
    next boundary [index[k+1]] or, on the last segment only, the
    sentinel -1. *)
Definition cursor_at (f0 : Filter) (d : Data) (k : Z) : Prop :=
  exists f, d.(filter) = Some f /\
            f.(index) = f0.(index) /\ f.(colors) = f0.(colors) /\
            f.(curFiltInd) = int k /\
            0 <= k <= alen f0.(index) - 1 /\
            (f.(nextInd) = aget f0.(index) (k + 1) \/
             (k = alen f0.(index) - 1 /\ f.(nextInd) = int (-1))).

(* ===================================================================== *)
(** ** Relations between states *)
(* ===================================================================== *)

(** Two filter slots hold the same table (boundaries and colours); the
    cursor may differ. *)
Definition same_table (f f' : option Filter) : Prop :=
  match f, f' with
  | Some a, Some b => index b = index a /\ colors b = colors a
  | None, None => True
  | _, _ => False
  end.

(** [d'] is the series [d] up to its filter cursor: same points, options
    and window. *)
Definition same_series (d d' : Data) : Prop :=
  x d' = x d /\ y d' = y d /\ plotType d' = plotType d /\
  hasFilter d' = hasFilter d /\ hasColor d' = hasColor d /\
  startInd d' = startInd d /\ stopInd d' = stopInd d /\
  same_table (filter d) (filter d').

(** Three points with two curves, and the same with the last row of y
    missing. *)
Definition tupleSeries : Data :=
  mkData [0; 1; 2]%Q (YTuples [[1; 5]; [3; 0]; [2; 7]]%Q) "normal"
         None false false 0 2.

Definition shortTupleSeries : Data :=
  mkData [0; 1; 2]%Q (YTuples [[1; 2]; [3; 4]]%Q) "normal" None false false 0 2.

(** What a render pass is not meant to touch: the geometry of the plot,
    the palette, the pinned zoom and the state of the zoom gesture. *)
Definition frame (p : Plot) :=
  (width p, height p, xLabelSize p, yLabelSize p, heightBuffer p,
   minTickPixels p, plotColors p, zoom p,
   (plotWidth p, plotXStart p, plotHeight p, plotYStart p),
   (zooming p, xZooming p, yZooming p, rectZooming p),
   (xZoomStart p, yZoomStart p)).

(** The scales and ticks a render pass computes. *)
Definition scales (p : Plot) :=
  (xScale p, xBias p, yScale p, yBias p, xTicks p, yTicks p).

(** [d'] has the points, options and filter table of [d]; window and
    cursor may differ. *)
Definition same_points (d d' : Data) : Prop :=
  x d' = x d /\ y d' = y d /\ plotType d' = plotType d /\
  hasFilter d' = hasFilter d /\ hasColor d' = hasColor d /\
  same_table (filter d) (filter d').

(** A plot with a pinned y range. *)
Definition zoomedY : Plot :=
  set_zoom (addData plot0 (series [0; 1; 2; 3; 4]%Q [1; 3; 2; 5; 4]%Q))
           (mkZoom Null Null (Num 2) (Num 4)).


(** [plot1] in the middle of a horizontal drag from pixel 100 to 200. *)
Definition dragged : Plot :=
  onmousemove (onmousedown plot1 (mkEvent 100 100)) (mkEvent 200 100).

(** The window of a series is its full extent. *)
Definition full_window (d : Data) : Prop :=
  startInd d = 0 /\ stopInd d = alen (x d) - 1.

(** A list of numbers in strictly ascending order, in the code's [<]. *)
Definition ascending (vs : list value) : Prop :=
  StronglySorted (fun u v => JS.lt u v = true) vs.

(** [plot1] in the middle of a vertical drag from pixel 100 to 200. *)
Definition draggedY : Plot :=
  onmousemove (onmousedown plot1 (mkEvent 100 100)) (mkEvent 100 200).

(** A filter with boundaries 0, 2 and two colours, and six points
    carrying it. *)
Definition filter02 : Filter :=
  mkFilter [0; 2]%Q ["red"; "green"]%string Undefined Undefined.

Definition series6 : Data :=
  mkData [0; 1; 2; 3; 4; 5]%Q (YFlat [1; 3; 2; 5; 4; 6]%Q) "normal"
         (Some filter02) true true 0 5.

(* ===================================================================== *)
(** * Properties *)
(* ===================================================================== *)

(** *** Arithmetic of the value layer *)

Lemma Qlt_bool_iff (a b : Q) : Qlt_bool a b = true <-> (a < b)%Q.
Proof.
  unfold Qlt_bool. rewrite negb_true_iff.
  split; intros H.
  - apply Qnot_le_lt. intros L. apply Qle_bool_iff in L. congruence.
  - destruct (Qle_bool b a) eqn:E; [|reflexivity].
    apply Qle_bool_iff in E. exfalso. exact (Qlt_not_le _ _ H E).
Qed.

Lemma Qred_inject_Z (z : Z) : Qred (inject_Z z) = inject_Z z.
Proof.
  unfold Qred, inject_Z.
  pose proof (Z.ggcd_gcd z 1) as G.
  pose proof (Z.ggcd_correct_divisors z 1) as D.
  destruct (Z.ggcd z 1) as [g [aa bb]]. simpl in *.
  rewrite Z.gcd_1_r in G. subst g. destruct D as [D1 D2].
  replace aa with z by lia. replace bb with 1 by lia. reflexivity.
Qed.

Lemma add_int (a b : Z) : JS.add (int a) (int b) = int (a + b).
Proof.
  change (JS.add (int a) (int b)) with (Num (Qred (inject_Z a + inject_Z b))).
  unfold int. f_equal.
  rewrite <- (Qred_inject_Z (a + b)). apply Qred_complete.
  unfold Qeq, Qplus, inject_Z. simpl. lia.
Qed.

Lemma Qfloor_inject_Z (z : Z) : Qfloor (inject_Z z) = z.
Proof. unfold Qfloor, inject_Z. apply Z.div_1_r. Qed.

Lemma aget_v_int (a : list Q) (k : Z) : aget_v a (int k) = aget a k.
Proof.
  unfold aget_v, int. rewrite Qfloor_inject_Z.
  assert (E : Qeq_bool (inject_Z k) (inject_Z k) = true)
    by (apply Qeq_bool_iff; reflexivity).
  rewrite E. reflexivity.
Qed.

Lemma seq_int (a b : Z) : JS.seq (int a) (int b) = (a =? b).
Proof.
  unfold JS.seq, int. destruct (a =? b) eqn:E.
  - apply Z.eqb_eq in E. subst. apply Qeq_bool_iff. reflexivity.
  - apply Z.eqb_neq in E. destruct (Qeq_bool (inject_Z a) (inject_Z b)) eqn:F; [|reflexivity].
    apply Qeq_bool_iff in F. unfold Qeq, inject_Z in F. simpl in F. lia.
Qed.

Lemma lt_int (a b : Z) : JS.lt (int a) (int b) = (a <? b).
Proof.
  unfold JS.lt, rel, int. simpl.
  destruct (a <? b) eqn:E.
  - apply Z.ltb_lt in E. apply Qlt_bool_iff. unfold Qlt, inject_Z. simpl. lia.
  - apply Z.ltb_ge in E. destruct (Qlt_bool (inject_Z a) (inject_Z b)) eqn:F; [|reflexivity].
    apply Qlt_bool_iff in F. unfold Qlt, inject_Z in F. simpl in F. lia.
Qed.

Create Rewrite HintDb js_int.
#[global] Hint Rewrite add_int aget_v_int seq_int lt_int : js_int.

(** Closed goals are settled by evaluation, conjunct by conjunct. *)
Ltac by_evaluation :=
  cbv zeta;
  lazymatch goal with
  | |- _ /\ _ => split; [by_evaluation | by_evaluation]
  | |- exists _, _ => eexists; by_evaluation
  | |- _ => vm_compute; reflexivity
  end.

Lemma aget_Some (a : list Q) (i : Z) (q : Q) :
  aget a i = Num q <-> 0 <= i /\ nth_error a (Z.to_nat i) = Some q.
Proof.
  unfold aget. destruct (i <? 0) eqn:E.
  - apply Z.ltb_lt in E. split; [discriminate | lia].
  - apply Z.ltb_ge in E. destruct (nth_error a (Z.to_nat i)) eqn:N.
    + split; [intros [= ->]; auto | intros [_ [= ->]]; reflexivity].
    + split; [discriminate | intros [_ H]; discriminate].
Qed.

Lemma aget_in_range (a : list Q) (i : Z) :
  0 <= i < alen a -> exists q, aget a i = Num q.
Proof.
  intros H. unfold alen in H.
  destruct (nth_error a (Z.to_nat i)) eqn:N.
  - exists q. apply aget_Some. split; [lia | assumption].
  - apply nth_error_None in N. lia.
Qed.

Lemma aget_out_of_range (a : list Q) (i : Z) :
  i < 0 \/ alen a <= i -> aget a i = Undefined.
Proof.
  intros H. unfold aget, alen in *.
  destruct (i <? 0) eqn:E; [reflexivity|].
  apply Z.ltb_ge in E.
  destruct (nth_error a (Z.to_nat i)) eqn:N; [|reflexivity].
  assert (nth_error a (Z.to_nat i) <> None) by congruence.
  apply nth_error_Some in H0. lia.
Qed.

(** *** The narrowing loop *)

Lemma midpoint_eq (lo hi : Z) : midpoint lo hi = (lo + hi + 1) / 2.
Proof.
  unfold midpoint, Qround_half_up.
  assert (E : (inject_Z (lo + hi) / 2 + (1 # 2) == (lo + hi + 1) # 2)%Q).
  { unfold Qeq, Qdiv, Qinv, Qplus, Qmult, inject_Z; simpl. lia. }
  rewrite E. reflexivity.
Qed.

Lemma midpoint_between (lo hi : Z) : 1 < hi - lo -> lo < midpoint lo hi < hi.
Proof.
  intros H. rewrite midpoint_eq.
  pose proof (Z.div_mod (lo + hi + 1) 2 ltac:(lia)).
  pose proof (Z.mod_pos_bound (lo + hi + 1) 2 ltac:(lia)).
  lia.
Qed.

(** The loop rule: an invariant kept by both branches of the body holds
    of the pair the loop returns, and that pair is at most one apart. *)
Lemma bsLoop_invariant (a : list Q) (t : value) (I : Z -> Z -> Prop) :
  (forall lo hi, 1 < hi - lo -> I lo hi ->
     JS.le (aget a (midpoint lo hi)) t = true -> I (midpoint lo hi) hi) ->
  (forall lo hi, 1 < hi - lo -> I lo hi ->
     JS.le (aget a (midpoint lo hi)) t = false -> I lo (midpoint lo hi)) ->
  forall lo hi, I lo hi ->
    I (fst (bsLoop a t lo hi)) (snd (bsLoop a t lo hi)) /\
    snd (bsLoop a t lo hi) - fst (bsLoop a t lo hi) <= 1.
Proof.
  intros Hle Hgt lo hi. funelim (bsLoop a t lo hi); intros HI.
  - match goal with
    | |- context [JS.le ?u ?v] => destruct (JS.le u v) eqn:E
    end.
    + match goal with IH : context [bsLoop _ _ (midpoint _ _) hi] |- _ => apply IH; auto end.
    + match goal with IH : context [bsLoop _ _ lo (midpoint _ _)] |- _ => apply IH; auto end.
  - simpl. split; [assumption | lia].
Qed.

Lemma le_Num (u v : Q) : JS.le (Num u) (Num v) = true <-> (u <= v)%Q.
Proof. apply Qle_bool_iff. Qed.

Lemma lt_Num (u v : Q) : JS.lt (Num u) (Num v) = true <-> (u < v)%Q.
Proof. apply Qlt_bool_iff. Qed.

Lemma le_aget (a : list Q) (i : Z) (t : Q) :
  JS.le (aget a i) (Num t) = true <->
  exists u, aget a i = Num u /\ (u <= t)%Q.
Proof.
  split.
  - destruct (aget a i) as [u| | |] eqn:E; try discriminate.
    + intros H. exists u. split; [reflexivity | apply le_Num; exact H].
    + unfold aget in E. destruct (i <? 0); [discriminate|].
      destruct (nth_error a (Z.to_nat i)); discriminate.
  - intros [u [-> H]]. apply le_Num. exact H.
Qed.

Lemma increasing_cons (u : Q) (t : list Q) :
  increasing (u :: t) -> increasing t /\ Forall (fun v => (u < v)%Q) t.
Proof.
  revert u. induction t as [|v t IH]; intros u H.
  - split; [reflexivity | constructor].
  - unfold increasing in H.
    change (increasingb (u :: v :: t))
      with (Qlt_bool u v && increasingb (v :: t)) in H.
    apply andb_true_iff in H as [H1 H2]. apply Qlt_bool_iff in H1.
    destruct (IH v H2) as [_ F]. split; [exact H2|].
    constructor; [assumption|].
    eapply Forall_impl; [|exact F]. intros w Hw. eapply Qlt_trans; eauto.
Qed.

Lemma increasing_nth (a : list Q) :
  increasing a ->
  forall (i j : nat) (u v : Q),
    (i < j)%nat -> nth_error a i = Some u -> nth_error a j = Some v -> (u < v)%Q.
Proof.
  induction a as [|w a IH]; intros Hinc i j u v Hij Hi Hj.
  - destruct i; discriminate.
  - destruct (increasing_cons _ _ Hinc) as [Ht F].
    destruct j as [|j]; [lia|]. simpl in Hj.
    destruct i as [|i]; simpl in Hi.
    + injection Hi as ->. rewrite Forall_forall in F. apply F.
      eapply nth_error_In; eauto.
    + eapply (IH Ht i j); eauto. lia.
Qed.

Lemma increasing_aget (a : list Q) (i j : Z) (u v : Q) :
  increasing a -> i < j -> aget a i = Num u -> aget a j = Num v -> (u < v)%Q.
Proof.
  intros Hinc Hij Hi Hj.
  apply aget_Some in Hi as [Hi0 Hi]. apply aget_Some in Hj as [Hj0 Hj].
  eapply (increasing_nth a Hinc (Z.to_nat i) (Z.to_nat j)); eauto. lia.
Qed.

(** *** [binarySearch]: the bracket it returns *)

Lemma binarySearch_unfold (a : list Q) (t : value) (upper : bool) :
  binarySearch a t upper =
  if upper then snd (bsLoop a t 0 (alen a - 1)) else fst (bsLoop a t 0 (alen a - 1)).
Proof. unfold binarySearch. destruct (bsLoop a t 0 (alen a - 1)); reflexivity. Qed.

(** On any array with at least one element the two results are ordered,
    at most one apart, and inside the array. *)
Lemma bsLoop_range (a : list Q) (t : value) :
  1 <= alen a ->
  0 <= fst (bsLoop a t 0 (alen a - 1))
    <= snd (bsLoop a t 0 (alen a - 1)) /\
  snd (bsLoop a t 0 (alen a - 1)) <= alen a - 1 /\
  snd (bsLoop a t 0 (alen a - 1)) - fst (bsLoop a t 0 (alen a - 1)) <= 1.
Proof.
  intros Hn.
  destruct (bsLoop_invariant a t (fun lo hi => 0 <= lo <= hi /\ hi <= alen a - 1))
    with (lo := 0) (hi := alen a - 1) as [[H1 H2] H3].
  - intros lo hi Hd [Hl Hh] _. pose proof (midpoint_between lo hi Hd). lia.
  - intros lo hi Hd [Hl Hh] _. pose proof (midpoint_between lo hi Hd). lia.
  - lia.
  - lia.
Qed.

(** With two elements or more the results are exactly one apart. *)
Lemma bsLoop_adjacent (a : list Q) (t : value) :
  2 <= alen a ->
  snd (bsLoop a t 0 (alen a - 1)) = fst (bsLoop a t 0 (alen a - 1)) + 1.
Proof.
  intros Hn.
  destruct (bsLoop_invariant a t (fun lo hi => lo < hi))
    with (lo := 0) (hi := alen a - 1) as [H1 H3].
  - intros lo hi Hd _ _. pose proof (midpoint_between lo hi Hd). lia.
  - intros lo hi Hd _ _. pose proof (midpoint_between lo hi Hd). lia.
  - lia.
  - lia.
Qed.

(** C9: for every strictly increasing non-empty array [A] and every
    target [t], [binarySearch(A, t, false) <= binarySearch(A, t, true)],
    and both results are valid indices into [A], that is, they lie in
    [0 .. length-1]. *)
Theorem binarySearch_ordered_valid (A : list Q) (t : Q) :
  increasing A -> A <> [] ->
  binarySearch A (Num t) false <= binarySearch A (Num t) true /\
  0 <= binarySearch A (Num t) false <= alen A - 1 /\
  0 <= binarySearch A (Num t) true <= alen A - 1.
Proof.
  intros _ Hne.
  assert (Hn : 1 <= alen A).
  { unfold alen. destruct A; [congruence | simpl; lia]. }
  rewrite !binarySearch_unfold.
  pose proof (bsLoop_range A (Num t) Hn). lia.
Qed.

Lemma binarySearch_ordered_valid_witness :
  binarySearch [1; 3; 4; 9]%Q (Num 5) false
    <= binarySearch [1; 3; 4; 9]%Q (Num 5) true /\
  0 <= binarySearch [1; 3; 4; 9]%Q (Num 5) false <= alen [1; 3; 4; 9]%Q - 1 /\
  0 <= binarySearch [1; 3; 4; 9]%Q (Num 5) true <= alen [1; 3; 4; 9]%Q - 1.
Proof.
  apply (binarySearch_ordered_valid [1; 3; 4; 9]%Q 5).
  - reflexivity.
  - discriminate.
Defined.

(** The loop keeps [a[lo] <= t] once it holds, and [t < a[hi]] as soon as
    [hi] has moved. *)
Lemma bsLoop_bracket (a : list Q) (t : Q) :
  2 <= alen a -> JS.le (aget a 0) (Num t) = true ->
  let r := bsLoop a (Num t) 0 (alen a - 1) in
  0 <= fst r /\ snd r = fst r + 1 /\ snd r <= alen a - 1 /\
  JS.le (aget a (fst r)) (Num t) = true /\
  (snd r = alen a - 1 \/ JS.le (aget a (snd r)) (Num t) = false).
Proof.
  intros Hn H0 r.
  destruct (bsLoop_invariant a (Num t)
              (fun lo hi => 0 <= lo /\ hi <= alen a - 1 /\
                 JS.le (aget a lo) (Num t) = true /\
                 (hi = alen a - 1 \/ JS.le (aget a hi) (Num t) = false)))
    with (lo := 0) (hi := alen a - 1) as [(H1 & H2 & H3 & H4) _].
  - intros lo hi Hd (Hl & Hh & Hlo & Hhi) E.
    pose proof (midpoint_between lo hi Hd). repeat split; auto; lia.
  - intros lo hi Hd (Hl & Hh & Hlo & Hhi) E.
    pose proof (midpoint_between lo hi Hd). repeat split; auto; lia.
  - repeat split; auto; lia.
  - pose proof (bsLoop_adjacent a (Num t) Hn). subst r. repeat split; auto.
Qed.

(** C1 (amended): for every strictly increasing array [A] of length at
    least 2 and every target [t] with [A[0] <= t]: when [t < A[length-1]],
    [binarySearch(A, t, false)] is the largest index [i] with [A[i] <= t]
    and [binarySearch(A, t, true)] is [i + 1]; when [A[length-1] <= t],
    the results are [length-2] and [length-1], the last bracket. *)
Theorem binarySearch_bracket (A : list Q) (t : Q) :
  increasing A -> 2 <= alen A -> JS.le (aget A 0) (Num t) = true ->
  (JS.lt (Num t) (aget A (alen A - 1)) = true ->
     largest_le A t (binarySearch A (Num t) false) /\
     binarySearch A (Num t) true = binarySearch A (Num t) false + 1) /\
  (JS.le (aget A (alen A - 1)) (Num t) = true ->
     binarySearch A (Num t) false = alen A - 2 /\
     binarySearch A (Num t) true = alen A - 1).
Proof.
  intros Hinc Hn H0. rewrite !binarySearch_unfold.
  destruct (bsLoop_bracket A t Hn H0) as (Hl & Hadj & Hh & Hlo & Hhi).
  set (lo := fst (bsLoop A (Num t) 0 (alen A - 1))) in *.
  set (hi := snd (bsLoop A (Num t) 0 (alen A - 1))) in *.
  split.
  - intros Hlast.
    assert (Hup : JS.le (aget A hi) (Num t) = false).
    { destruct Hhi as [Hhi | Hhi]; [|exact Hhi]. rewrite Hhi.
      destruct (aget_in_range A (alen A - 1)) as [v E]; [lia|].
      rewrite E in *. apply lt_Num in Hlast.
      destruct (JS.le (Num v) (Num t)) eqn:F; [|reflexivity].
      apply le_Num in F. exfalso. exact (Qlt_not_le _ _ Hlast F). }
    split; [|exact Hadj]. split; [exact Hlo|].
    intros j Hj. destruct (Z_le_gt_dec j lo) as [|Hgt]; [assumption|exfalso].
    apply le_aget in Hj as [v [Ej Hv]].
    destruct (aget_in_range A hi) as [w Ew]; [lia|].
    rewrite Ew in Hup.
    assert (Hw : (w <= v)%Q).
    { destruct (Z.eq_dec j hi) as [->|Hne].
      - rewrite Ew in Ej. injection Ej as ->. apply Qle_refl.
      - apply Qlt_le_weak. apply (increasing_aget A hi j w v Hinc); auto. lia. }
    assert (F : JS.le (Num w) (Num t) = true).
    { apply le_Num. eapply Qle_trans; eauto. }
    congruence.
  - intros Hlast. destruct Hhi as [Hhi | Hhi]; [lia|exfalso].
    apply le_aget in Hlast as [v [Ev Hv]].
    destruct (aget_in_range A hi) as [w Ew]; [lia|].
    rewrite Ew in Hhi.
    assert (Hw : (w <= v)%Q).
    { destruct (Z.eq_dec hi (alen A - 1)) as [E|Hne].
      - rewrite E in Ew. rewrite Ew in Ev. injection Ev as ->. apply Qle_refl.
      - apply Qlt_le_weak.
        apply (increasing_aget A hi (alen A - 1) w v Hinc); auto. lia. }
    assert (F : JS.le (Num w) (Num t) = true).
    { apply le_Num. eapply Qle_trans; eauto. }
    congruence.
Qed.

Lemma binarySearch_bracket_witness :
  largest_le [1; 3; 4; 9]%Q 5 (binarySearch [1; 3; 4; 9]%Q (Num 5) false) /\
  binarySearch [1; 3; 4; 9]%Q (Num 5) true
    = binarySearch [1; 3; 4; 9]%Q (Num 5) false + 1.
Proof.
  apply (binarySearch_bracket [1; 3; 4; 9]%Q 5);
    first [reflexivity | vm_compute; discriminate].
Defined.

(** C1 as written fails at the last element: in [[1, 2, 3]] the largest
    index with [A[i] <= 3] is 2, and the search returns 1. *)
Lemma binarySearch_last_element_counterexample :
  increasing [1; 2; 3]%Q /\ 2 <= alen [1; 2; 3]%Q /\
  JS.le (aget [1; 2; 3]%Q 0) (Num 3) = true /\
  binarySearch [1; 2; 3]%Q (Num 3) false = 1 /\
  ~ largest_le [1; 2; 3]%Q 3 (binarySearch [1; 2; 3]%Q (Num 3) false).
Proof.
  repeat split; try reflexivity; try (vm_compute; discriminate).
  intros [_ H]. specialize (H 2 eq_refl). vm_compute in H. apply H. reflexivity.
Qed.

(** *** The constructor *)

(** C6 (amended): the constructor validates nothing.  Whatever the arrays
    [x] and [y] are (mismatched lengths, non-increasing x, ragged tuples
    included), construction with undefined or object options succeeds and
    yields a series that holds [x] and [y] as given with the window
    [0 .. length-1]; only [null] options make it throw. *)
Theorem Data_constructor_accepts (xs : list Q) (ys : ydata) (o : optarg) :
  o <> OptNull ->
  exists d, DashGraph_Data xs ys o = Ok d /\
            d.(x) = xs /\ d.(y) = ys /\
            d.(startInd) = 0 /\ d.(stopInd) = alen xs - 1.
Proof.
  intros Ho. destruct o as [| |o]; [|congruence|]; simpl;
    eexists; (split; [reflexivity|]); simpl; auto.
Qed.

Lemma Data_constructor_accepts_witness :
  exists d, DashGraph_Data [1; 2; 3]%Q (YFlat [1]%Q) OptUndefined = Ok d /\
            d.(x) = [1; 2; 3]%Q /\ d.(y) = YFlat [1]%Q /\
            d.(startInd) = 0 /\ d.(stopInd) = alen [1; 2; 3]%Q - 1.
Proof.
  apply (Data_constructor_accepts [1; 2; 3]%Q (YFlat [1]%Q) OptUndefined).
  discriminate.
Defined.

(** C6 as written fails: a series with three x values and one y value, one
    with decreasing x, and one with ragged tuples are all constructed
    without an error. *)
Lemma Data_constructor_counterexample :
  (validSeries [1; 2; 3]%Q (YFlat [1]%Q) = false /\
   ~ rejected [1; 2; 3]%Q (YFlat [1]%Q) OptUndefined) /\
  (validSeries [3; 2; 1]%Q (YFlat [1; 2; 3]%Q) = false /\
   ~ rejected [3; 2; 1]%Q (YFlat [1; 2; 3]%Q) OptUndefined) /\
  (validSeries [1; 2]%Q (YTuples [[1; 2]; [3]]%Q) = false /\
   ~ rejected [1; 2]%Q (YTuples [[1; 2]; [3]]%Q) OptUndefined).
Proof.
  repeat split; try reflexivity; intros [e H]; discriminate H.
Qed.

(** *** The filter cursor *)

Lemma resetBounds_cursor (d : Data) (f0 : Filter) :
  d.(filter) = Some f0 -> 1 <= alen f0.(index) ->
  cursor_at f0 (resetBounds d) 0.
Proof.
  intros Hf Hn. unfold resetBounds. cbn [filter with_bounds]. rewrite Hf.
  rewrite seq_int. destruct (0 =? alen (index f0) - 1) eqn:E.
  - apply Z.eqb_eq in E. eexists. split; [reflexivity|]. simpl.
    repeat split; auto; try lia.
  - eexists. split; [reflexivity|]. simpl. repeat split; auto; lia.
Qed.

Lemma setBounds_cursor (d : Data) (f0 : Filter) (s e : value) :
  d.(filter) = Some f0 -> 1 <= alen f0.(index) ->
  exists k, cursor_at f0 (setBounds d s e) k.
Proof.
  intros Hf Hn. unfold setBounds. cbn [filter with_bounds]. rewrite Hf.
  destruct (JS.gt _ _).
  - exists (alen (index f0) - 1). eexists. split; [reflexivity|]. simpl.
    repeat split; auto; try lia.
  - exists (binarySearch (index f0) (int (binarySearch (x d) s false)) false).
    eexists. split; [reflexivity|].
    cbn [index colors curFiltInd nextInd with_cursor].
    autorewrite with js_int. rewrite binarySearch_unfold.
    pose proof (bsLoop_range (index f0) (int (binarySearch (x d) s false)) Hn).
    repeat (split; [first [reflexivity | lia]|]).
    left. reflexivity.
Qed.

(** One call with an index other than the sentinel -1 keeps the cursor
    inside the table; on the last segment it changes nothing. *)
Lemma updateFilter_cursor (f0 : Filter) (d : Data) (k i : Z) :
  cursor_at f0 d k -> i <> -1 ->
  exists d' b k', updateFilter d i = Ok (d', b) /\ cursor_at f0 d' k' /\
                  (k = alen f0.(index) - 1 -> d' = d /\ b = false).
Proof.
  intros (f & Hf & Hi & Hc & Hk & Hr & Hn) H0.
  unfold updateFilter. rewrite Hf.
  destruct (JS.seq (int i) (nextInd f)) eqn:E.
  - destruct Hn as [Hn | [Hlast Hn]].
    + rewrite Hn in E.
      destruct (Z_lt_dec (k + 1) (alen (index f0))) as [Hin | Hout].
      * do 3 eexists. split; [reflexivity|]. split.
        -- exists (with_cursor f
                     (JS.add (curFiltInd f) (int 1))
                     (if JS.lt (JS.add (curFiltInd f) (int 1)) (int (alen (index f)))
                      then aget_v (index f) (JS.add (JS.add (curFiltInd f) (int 1)) (int 1))
                      else int (-1))).
           split; [reflexivity|].
           cbn [index colors curFiltInd nextInd with_cursor].
           rewrite Hk, Hi. autorewrite with js_int.
           assert (L : (k + 1 <? alen (index f0)) = true) by (apply Z.ltb_lt; lia).
           rewrite L.
           repeat (split; [first [reflexivity | assumption | lia]|]).
           left. reflexivity.
        -- intros ->. lia.
      * rewrite (aget_out_of_range (index f0) (k + 1)) in E by lia.
        discriminate E.
    + rewrite Hn, seq_int in E. apply Z.eqb_eq in E. lia.
  - exists d, false, k. split; [reflexivity|]. split.
    + exists f. repeat split; auto; lia.
    + auto.
Qed.

Lemma replayFilter_cursor (f0 : Filter) (inds : list Z) :
  Forall (fun i => i <> -1) inds ->
  forall d k, cursor_at f0 d k ->
  exists d' bs k', replayFilter d inds = Ok (d', bs) /\ cursor_at f0 d' k'.
Proof.
  induction 1 as [|i inds Hi _ IH]; intros d k Hc.
  - exists d, [], k. split; [reflexivity | assumption].
  - destruct (updateFilter_cursor f0 d k i Hc Hi) as (d1 & b & k1 & E & Hc1 & _).
    destruct (IH d1 k1 Hc1) as (d2 & bs & k2 & E2 & Hc2).
    exists d2, (b :: bs), k2. split; [|assumption].
    simpl. rewrite E. simpl. rewrite E2. reflexivity.
Qed.

Lemma cursor_color (f0 : Filter) (d : Data) (k : Z) :
  cursor_at f0 d k -> alen f0.(colors) = alen f0.(index) ->
  exists c, getColor d = Color c /\ nth_error f0.(colors) (Z.to_nat k) = Some c.
Proof.
  intros (f & Hf & Hi & Hc & Hk & Hr & _) Hlen.
  unfold getColor. rewrite Hf, Hk, Hc. unfold color_at, int.
  rewrite Qfloor_inject_Z.
  assert (E : Qeq_bool (inject_Z k) (inject_Z k) = true)
    by (apply Qeq_bool_iff; reflexivity).
  assert (L : (0 <=? k) = true) by (apply Z.leb_le; lia).
  rewrite E, L. simpl.
  destruct (nth_error (colors f0) (Z.to_nat k)) as [c|] eqn:N.
  - exists c. split; reflexivity.
  - apply nth_error_None in N. unfold alen in *. lia.
Qed.

(** C10 (amended): for a series whose filter has [n >= 1] strictly
    increasing boundary indices and [n] colours, after [resetBounds] or
    [setBounds] and any subsequent sequence of [updateFilter] calls with
    integer indices other than -1 (the value the code stores in
    [nextInd] as "no next boundary"; every index [0 <= i] of a series
    qualifies), [curFiltInd] is an integer in [0 .. n-1], [getColor]
    returns an element of the [colors] array, and once the cursor is on
    the last segment [updateFilter] with such an index answers [false]
    and leaves the series unchanged. *)
Theorem filter_cursor_stays_in_range
        (d d0 : Data) (f0 : Filter) (inds : list Z) :
  d.(filter) = Some f0 ->
  increasing f0.(index) ->
  1 <= alen f0.(index) ->
  alen f0.(colors) = alen f0.(index) ->
  (d0 = resetBounds d \/ exists s e, d0 = setBounds d s e) ->
  Forall (fun i => i <> -1) inds ->
  exists d' bs f k c,
    replayFilter d0 inds = Ok (d', bs) /\
    d'.(filter) = Some f /\
    f.(curFiltInd) = int k /\ 0 <= k <= alen f0.(index) - 1 /\
    getColor d' = Color c /\ nth_error f0.(colors) (Z.to_nat k) = Some c /\
    (k = alen f0.(index) - 1 ->
     forall i, i <> -1 -> updateFilter d' i = Ok (d', false)).
Proof.
  intros Hf _ Hn Hlen Hd0 Hinds.
  assert (H0 : exists k0, cursor_at f0 d0 k0).
  { destruct Hd0 as [-> | (s & e & ->)].
    - exists 0. apply resetBounds_cursor; assumption.
    - apply setBounds_cursor; assumption. }
  destruct H0 as [k0 H0].
  destruct (replayFilter_cursor f0 inds Hinds d0 k0 H0) as (d' & bs & k & E & Hc).
  destruct (cursor_color f0 d' k Hc Hlen) as (c & Hcol & Hnth).
  pose proof Hc as (f & Hf' & _ & _ & Hk & Hr & _).
  exists d', bs, f, k, c. repeat split; auto; try lia.
  intros Hlast i Hi.
  destruct (updateFilter_cursor f0 d' k i Hc Hi) as (d2 & b & k2 & E2 & _ & Hsame).
  destruct (Hsame Hlast) as [-> ->]. exact E2.
Qed.

Lemma filter_cursor_stays_in_range_witness :
  exists d' bs f k c,
    replayFilter (resetBounds series5) [1; 2; 3; 4] = Ok (d', bs) /\
    d'.(filter) = Some f /\
    f.(curFiltInd) = int k /\ 0 <= k <= alen filter024.(index) - 1 /\
    getColor d' = Color c /\ nth_error filter024.(colors) (Z.to_nat k) = Some c /\
    (k = alen filter024.(index) - 1 ->
     forall i, i <> -1 -> updateFilter d' i = Ok (d', false)).
Proof.
  apply (filter_cursor_stays_in_range series5 (resetBounds series5) filter024
           [1; 2; 3; 4]).
  - reflexivity.
  - reflexivity.
  - vm_compute; discriminate.
  - reflexivity.
  - left; reflexivity.
  - repeat constructor; discriminate.
Defined.

(** C10 as written, for any numeric index, fails at -1.  [series6] has
    two strictly increasing boundaries 0, 2 and two colours; a window
    starting at x = 3 lies past the last boundary, so [setBounds] puts
    the cursor on the last segment ([curFiltInd = 1]) and stores
    [nextInd = -1].  A call [updateFilter(-1)] then compares equal to
    [nextInd], answers [true] and advances the cursor to 2 = n, and
    [getColor] reads [colors[2]], which is undefined. *)
Lemma filter_cursor_sentinel_counterexample :
  increasing (index filter02) /\
  alen (colors filter02) = alen (index filter02) /\
  filter series6 = Some filter02 /\
  startInd (setBounds series6 (Num 3) (Num 5)) = 3 /\
  exists f d' f',
    filter (setBounds series6 (Num 3) (Num 5)) = Some f /\
    curFiltInd f = int (alen (index filter02) - 1) /\
    nextInd f = int (-1) /\
    updateFilter (setBounds series6 (Num 3) (Num 5)) (-1) = Ok (d', true) /\
    filter d' = Some f' /\
    curFiltInd f' = int (alen (index filter02)) /\
    getColor d' = ColorUndefined.
Proof.
  split; [vm_compute; reflexivity|].
  split; [reflexivity|]. split; [reflexivity|].
  split; [vm_compute; reflexivity|].
  do 3 eexists.
  split; [vm_compute; reflexivity|].
  split; [vm_compute; reflexivity|].
  split; [vm_compute; reflexivity|].
  split; [vm_compute; reflexivity|].
  split; [vm_compute; reflexivity|].
  split; vm_compute; reflexivity.
Qed.

(** The same happens after [resetBounds] on a one-segment filter, which
    stores [nextInd = -1] as well: a call with -1 is taken for a
    boundary. *)
Lemma updateFilter_sentinel :
  let d := resetBounds (mkData [0; 1]%Q (YFlat [0; 1]%Q) "normal"
                          (Some (mkFilter [0]%Q ["red"]%string Undefined Undefined))
                          true true 0 1) in
  exists d', updateFilter d (-1) = Ok (d', true) /\ getColor d' = ColorUndefined.
Proof. by_evaluation. Qed.

(** *** Five points, boundaries 0, 2, 4 *)

(** The search tree of the loop on a five-element array. *)
Lemma bsLoop_five (a0 a1 a2 a3 a4 : Q) (t : value) :
  bsLoop [a0; a1; a2; a3; a4] t 0 4 =
  if JS.le (Num a2) t
  then (if JS.le (Num a3) t then (3, 4) else (2, 3))
  else (if JS.le (Num a1) t then (1, 2) else (0, 1)).
Proof.
  repeat (simp bsLoop; rewrite ?midpoint_eq; simpl).
  reflexivity.
Qed.

Lemma five_elements {A} (l : list A) :
  alen l = 5 -> exists a0 a1 a2 a3 a4, l = [a0; a1; a2; a3; a4].
Proof.
  unfold alen. intros H.
  destruct l as [|a0 [|a1 [|a2 [|a3 [|a4 [|a5 l]]]]]]; simpl in H; try lia.
  now exists a0, a1, a2, a3, a4.
Qed.

Lemma le_Num_trans (u s e : Q) :
  (s <= e)%Q -> JS.le (Num u) (Num s) = true -> JS.le (Num u) (Num e) = true.
Proof.
  intros Hse H. apply le_Num. apply le_Num in H. eapply Qle_trans; eauto.
Qed.

(** C4 (amended): for a 5-point series with colour-filter boundaries
    [0, 2, 4] and 3 colours: after [resetBounds], calling [updateFilter]
    on the indices 1..4 in order returns [true] exactly twice; after a
    [setBounds(s, e)] with [s <= e] that resolves the window start to
    index 3, the remaining window is the single index 4 and replaying
    [updateFilter] over it returns [true] exactly once: the cursor was
    put on segment 1, so boundary 2 is not reported again, and boundary 4
    still lies ahead. *)
Theorem filter_transitions_five_points (d : Data) (f : Filter) (s e : Q) :
  alen d.(x) = 5 -> d.(filter) = Some f ->
  f.(index) = [0; 2; 4]%Q -> alen f.(colors) = 3 ->
  (windowIndices (resetBounds d) = [1; 2; 3; 4] /\
   exists d' bs, replayFilter (resetBounds d) [1; 2; 3; 4] = Ok (d', bs) /\
                 transitions bs = 2%nat) /\
  ((s <= e)%Q -> startInd (setBounds d (Num s) (Num e)) = 3 ->
   windowIndices (setBounds d (Num s) (Num e)) = [4] /\
   exists d' bs, replayFilter (setBounds d (Num s) (Num e)) [4] = Ok (d', bs) /\
                 transitions bs = 1%nat).
Proof.
  intros Hx Hf Hi Hc.
  destruct d as [xs ys pt fl hf hc si ei]. destruct f as [ix cs cur nxt].
  simpl in *. subst fl ix.
  destruct (five_elements xs Hx) as (a0 & a1 & a2 & a3 & a4 & ->).
  split.
  - split; [reflexivity|]. do 2 eexists. split; reflexivity.
  - intros Hse. unfold setBounds, windowIndices. cbn [x filter with_bounds].
    rewrite !binarySearch_unfold.
    change (alen [a0; a1; a2; a3; a4] - 1) with 4. rewrite !bsLoop_five.
    destruct (JS.le (Num a2) (Num s)) eqn:E2.
    + destruct (JS.le (Num a3) (Num s)) eqn:E3.
      * rewrite (le_Num_trans a2 s e Hse E2), (le_Num_trans a3 s e Hse E3).
        intros _. split; [reflexivity|]. do 2 eexists. split; reflexivity.
      * vm_compute. discriminate.
    + destruct (JS.le (Num a1) (Num s)); vm_compute; discriminate.
Qed.

Lemma filter_transitions_five_points_witness :
  windowIndices (setBounds series5 (Num 3) (Num 4)) = [4] /\
  exists d' bs,
    replayFilter (setBounds series5 (Num 3) (Num 4)) [4] = Ok (d', bs) /\
    transitions bs = 1%nat.
Proof.
  apply (filter_transitions_five_points series5 filter024 3 4);
    first [reflexivity | vm_compute; discriminate].
Defined.

(** C4 as written fails in its second half: with the window start at
    index 3 the window is [3 .. 4], and index 4 is a boundary, so the
    replay reports one transition, not none (whether or not the start
    index itself is replayed). *)
Lemma filter_window_start_counterexample :
  startInd (setBounds series5 (Num 3) (Num 4)) = 3 /\
  stopInd (setBounds series5 (Num 3) (Num 4)) = 4 /\
  (exists d', replayFilter (setBounds series5 (Num 3) (Num 4))
                (windowIndices (setBounds series5 (Num 3) (Num 4)))
              = Ok (d', [true])) /\
  (exists d', replayFilter (setBounds series5 (Num 3) (Num 4)) [3; 4]
              = Ok (d', [false; true])) /\
  transitions [true] <> 0%nat /\ transitions [false; true] <> 0%nat.
Proof.
  repeat split; try reflexivity; try (eexists; reflexivity); discriminate.
Qed.


(** *** Scale maps *)

Lemma div_Num (a b : Q) :
  ~ (b == 0)%Q -> JS.div (Num a) (Num b) = num (a / b).
Proof.
  intros Hb. unfold JS.div. simpl ToNumber. cbv iota beta.
  destruct (Qeq_bool b 0) eqn:E; [|reflexivity].
  apply Qeq_bool_iff in E. contradiction.
Qed.

(** Pixel to value after value to pixel, and back, for one axis with
    scale factor [sc] and bias [b]. *)
Lemma to_pixel_to_value (sc b v : Q) :
  ~ (sc == 0)%Q ->
  exists r, JS.div (JS.sub (JS.add (JS.mul (Num v) (Num sc)) (Num b)) (Num b)) (Num sc)
            = Num r /\ (r == v)%Q.
Proof.
  intros Hs.
  change (JS.sub (JS.add (JS.mul (Num v) (Num sc)) (Num b)) (Num b))
    with (Num (Qred (Qred (Qred (v * sc) + b) - b))).
  rewrite div_Num by assumption. eexists. split; [reflexivity|].
  rewrite !Qred_correct. field. assumption.
Qed.

Lemma to_value_to_pixel (sc b v : Q) :
  ~ (sc == 0)%Q ->
  exists r, JS.add (JS.mul (JS.div (JS.sub (Num v) (Num b)) (Num sc)) (Num sc)) (Num b)
            = Num r /\ (r == v)%Q.
Proof.
  intros Hs.
  change (JS.sub (Num v) (Num b)) with (Num (Qred (v - b))).
  rewrite div_Num by assumption.
  eexists. split; [reflexivity|].
  rewrite !Qred_correct. field. assumption.
Qed.

(** C7: for every value [v] and every scale state with non-zero scale
    factors, the pixel/value maps are mutual inverses:
    [getXPixelPos(getXCanvasPos(v)) = v] and
    [getYPixelPos(getYCanvasPos(v)) = v], as rational numbers, and
    likewise in the other order. *)
Theorem canvas_pixel_round_trip (p : Plot) (sx bx sy bY v : Q) :
  p.(xScale) = Num sx -> p.(xBias) = Num bx ->
  p.(yScale) = Num sy -> p.(yBias) = Num bY ->
  ~ (sx == 0)%Q -> ~ (sy == 0)%Q ->
  (exists r, getXPixelPos p (getXCanvasPos p (Num v)) = Num r /\ (r == v)%Q) /\
  (exists r, getYPixelPos p (getYCanvasPos p (Num v)) = Num r /\ (r == v)%Q) /\
  (exists r, getXCanvasPos p (getXPixelPos p (Num v)) = Num r /\ (r == v)%Q) /\
  (exists r, getYCanvasPos p (getYPixelPos p (Num v)) = Num r /\ (r == v)%Q).
Proof.
  intros Hsx Hbx Hsy Hby Nx Ny.
  unfold getXPixelPos, getXCanvasPos, getYPixelPos, getYCanvasPos.
  rewrite Hsx, Hbx, Hsy, Hby.
  repeat split;
    first [apply to_pixel_to_value | apply to_value_to_pixel]; assumption.
Qed.

(** *** The axis lock *)

Lemma gt_num (a b : Q) : JS.gt (num a) (num b) = true <-> (b < a)%Q.
Proof.
  unfold JS.gt, rel, num. simpl ToNumber. cbv iota beta.
  rewrite Qlt_bool_iff, !Qred_correct. reflexivity.
Qed.

Lemma gt_num_int (a : Q) (z : Z) :
  JS.gt (num a) (int z) = true <-> (inject_Z z < a)%Q.
Proof.
  unfold JS.gt, rel, num, int. simpl ToNumber. cbv iota beta.
  rewrite Qlt_bool_iff, !Qred_correct. reflexivity.
Qed.

Lemma dist_Num (u a : Q) :
  Math_abs (JS.sub (Num u) (Num a)) = num (Qabs (Qred (u - a))).
Proof. reflexivity. Qed.

Lemma Qabs_Qred (q : Q) : (Qabs (Qred q) == Qabs q)%Q.
Proof. rewrite Qred_correct. reflexivity. Qed.

(** C8 (amended): while a zoom drag is in progress and no axis is locked
    yet, a pointer-move locks the x axis exactly when the horizontal drag
    distance from the anchor strictly dominates the vertical one and
    itself exceeds 1 pixel, and the y axis exactly when the vertical
    distance strictly dominates and exceeds 1 pixel; the dominated
    distance is not compared with the threshold. *)
Theorem onmousemove_axis_lock (p : Plot) (e : Event) (ax ay : Q) :
  p.(zooming) = true -> p.(xZooming) = false -> p.(yZooming) = false ->
  p.(xZoomStart) = Num ax -> p.(yZoomStart) = Num ay ->
  let dx := Qabs (e.(canvasX) - ax) in
  let dy := Qabs (e.(canvasY) - ay) in
  ((onmousemove p e).(xZooming) = true <-> (dy < dx)%Q /\ (1 < dx)%Q) /\
  ((onmousemove p e).(yZooming) = true <-> (dx < dy)%Q /\ (1 < dy)%Q).
Proof.
  intros Hz Hxz Hyz Hax Hay dx dy.
  unfold onmousemove. rewrite Hz. unfold xDist, yDist. rewrite Hax, Hay.
  rewrite !dist_Num.
  set (X := Qabs (Qred (canvasX e - ax))).
  set (Y := Qabs (Qred (canvasY e - ay))).
  assert (Gxy : JS.gt (num X) (num Y) = true <-> (dy < dx)%Q)
    by (rewrite gt_num; subst X Y dx dy; rewrite !Qabs_Qred; reflexivity).
  assert (Gyx : JS.gt (num Y) (num X) = true <-> (dx < dy)%Q)
    by (rewrite gt_num; subst X Y dx dy; rewrite !Qabs_Qred; reflexivity).
  assert (Gx1 : JS.gt (num X) (int 1) = true <-> (1 < dx)%Q)
    by (rewrite gt_num_int; subst X dx; rewrite !Qabs_Qred; reflexivity).
  assert (Gy1 : JS.gt (num Y) (int 1) = true <-> (1 < dy)%Q)
    by (rewrite gt_num_int; subst Y dy; rewrite !Qabs_Qred; reflexivity).
  assert (Hasym : (dy < dx)%Q -> (dx < dy)%Q -> False)
    by (intros H1 H2; exact (Qlt_irrefl _ (Qlt_trans _ _ _ H1 H2))).
  destruct (JS.gt (num X) (num Y)); destruct (JS.gt (num X) (int 1));
    destruct (JS.gt (num Y) (num X)); destruct (JS.gt (num Y) (int 1));
    cbn; rewrite ?Hxz, ?Hyz; intuition (try discriminate).
Qed.

Lemma onmousemove_axis_lock_witness :
  let p := onmousedown plot0 (mkEvent 50 50) in
  let e := mkEvent 120 60 in
  ((onmousemove p e).(xZooming) = true <->
     (Qabs (60 - 50) < Qabs (120 - 50))%Q /\ (1 < Qabs (120 - 50))%Q) /\
  ((onmousemove p e).(yZooming) = true <->
     (Qabs (120 - 50) < Qabs (60 - 50))%Q /\ (1 < Qabs (60 - 50))%Q).
Proof.
  apply (onmousemove_axis_lock (onmousedown plot0 (mkEvent 50 50))
           (mkEvent 120 60) 50 50); reflexivity.
Defined.

(** C8 as written fails: a purely horizontal drag of 70 pixels locks the
    x axis although the vertical distance is 0, below the threshold. *)
Lemma onmousemove_lock_counterexample :
  let p := onmousedown plot0 (mkEvent 50 50) in
  let e := mkEvent 120 50 in
  p.(zooming) = true /\ p.(xZooming) = false /\ p.(yZooming) = false /\
  (onmousemove p e).(xZooming) = true /\
  yDist p e = int 0 /\ JS.gt (yDist p e) (int 1) = false.
Proof. repeat split; reflexivity. Qed.

Lemma canvas_pixel_round_trip_witness :
  (exists r, getXPixelPos plot1 (getXCanvasPos plot1 (Num 3)) = Num r /\ (r == 3)%Q) /\
  (exists r, getYPixelPos plot1 (getYCanvasPos plot1 (Num 3)) = Num r /\ (r == 3)%Q) /\
  (exists r, getXCanvasPos plot1 (getXPixelPos plot1 (Num 3)) = Num r /\ (r == 3)%Q) /\
  (exists r, getYCanvasPos plot1 (getYPixelPos plot1 (Num 3)) = Num r /\ (r == 3)%Q).
Proof.
  apply (canvas_pixel_round_trip plot1 (175 # 2) 50 (-105 # 2) (565 # 2) 3);
    first [reflexivity | intros H; vm_compute in H; discriminate H].
Defined.

(** *** The y-extrema *)

Example getYBounds_reset :
  getYBounds (resetBounds (series [0; 1; 2; 3; 4]%Q [1; 3; 2; 5; 4]%Q))
  = Ok (Num 1, Num 5).
Proof. by_evaluation. Qed.

(** A tuple-valued series with fewer rows than x values is constructed
    without complaint and makes the first render pass throw. *)
Example ragged_series_throws_in_render :
  exists d,
    DashGraph_Data [0; 1; 2]%Q (YTuples [[1; 2]; [3; 4]]%Q) OptUndefined = Ok d /\
    render (addData plot0 d) = Throw TypeError.
Proof. by_evaluation. Qed.

(** *** The x-domain of [preprocess] *)

(** Whenever a later series starts before the minimum found so far, the
    replacement value is read at the index [this.startInd] of the plot,
    and the minimum becomes [undefined]; likewise for the maximum. *)
Lemma mergeSeries_xMin (p : Plot) (acc : XDomain) (d : Data) :
  JS.gt acc.(dom_xMin) (aget (resetBounds d).(x) (resetBounds d).(startInd)) = true ->
  (mergeSeries p acc d).(dom_xMin) = Undefined.
Proof. intros H. unfold mergeSeries. cbn [dom_xMin]. rewrite H. reflexivity. Qed.

Lemma mergeSeries_xMax (p : Plot) (acc : XDomain) (d : Data) :
  JS.lt acc.(dom_xMax) (aget (resetBounds d).(x) (resetBounds d).(stopInd)) = true ->
  (mergeSeries p acc d).(dom_xMax) = Undefined.
Proof. intros H. unfold mergeSeries. cbn [dom_xMax]. rewrite H. reflexivity. Qed.

(** C3: in auto-fit mode with the series x = [5, 6] and x = [1, 2] added
    in this order, the merged extrema are 1 and 6, but [preprocess]
    computes [xMin = undefined]; the x scale is then NaN and no x tick is
    produced. *)
Theorem preprocess_xMin_two_series :
  twoSeries.(zoom).(xMin) = Null /\
  (exists dom, xDomain twoSeries = Ok dom /\
               dom.(dom_xMin) = Undefined /\ dom.(dom_xMax) = Num 6) /\
  (exists p, preprocess twoSeries = Ok p /\
             p.(xScale) = NaN /\ p.(xBias) = NaN /\ p.(xTicks) = []).
Proof. by_evaluation. Qed.

(** *** The exact decimal logarithm *)

Lemma pow10_pos (k : Z) : (0 < 10 ^ k)%Q.
Proof. apply Qpower_0_lt. reflexivity. Qed.

Lemma pow10_succ (k : Z) : (10 ^ (k + 1) == 10 ^ k * 10)%Q.
Proof. rewrite Qpower_plus by discriminate. reflexivity. Qed.

Lemma log10_up_spec (fuel : nat) :
  forall (q : Q) (k : Z),
    (1 <= q)%Q -> (q < 10 ^ Z.of_nat fuel)%Q ->
    (10 ^ (log10_up fuel q k - k) <= q
     /\ q < 10 ^ (log10_up fuel q k - k + 1))%Q.
Proof.
  induction fuel as [|f IH]; intros q k H1 Hf.
  - exfalso. change (10 ^ Z.of_nat 0)%Q with 1%Q in Hf.
    exact (Qlt_not_le _ _ Hf H1).
  - cbn [log10_up]. destruct (Qle_bool 10 q) eqn:E.
    + apply Qle_bool_iff in E.
      assert (Hq : (q / 10 * 10 == q)%Q) by (field).
      assert (G1 : (1 <= q / 10)%Q).
      { apply Qle_shift_div_l; [reflexivity | exact E]. }
      assert (G2 : (q / 10 < 10 ^ Z.of_nat f)%Q).
      { apply Qlt_shift_div_r; [reflexivity|].
        rewrite <- pow10_succ. replace (Z.of_nat f + 1) with (Z.of_nat (S f)) by lia.
        exact Hf. }
      destruct (IH (q / 10)%Q (k + 1) G1 G2) as [A B].
      set (r := log10_up f (q / 10) (k + 1)) in *.
      replace (r - k) with (r - (k + 1) + 1) by lia.
      split.
      * rewrite pow10_succ, <- Hq. apply Qmult_le_compat_r; [exact A | discriminate].
      * rewrite pow10_succ, <- Hq at 1. apply Qmult_lt_compat_r; [reflexivity | exact B].
    + replace (k - k) with 0 by lia. split; [exact H1|].
      change (10 ^ (0 + 1))%Q with 10%Q.
      apply Qnot_le_lt. intros L. apply Qle_bool_iff in L. congruence.
Qed.

Lemma log10_down_spec (fuel : nat) :
  forall (q : Q) (k : Z),
    (0 < q)%Q -> (q < 10)%Q -> (1 <= q * 10 ^ Z.of_nat fuel)%Q ->
    (10 ^ (log10_down fuel q k - k) <= q
     /\ q < 10 ^ (log10_down fuel q k - k + 1))%Q.
Proof.
  induction fuel as [|f IH]; intros q k H0 H10 Hf.
  - cbn [log10_down]. replace (k - k) with 0 by lia.
    change (10 ^ Z.of_nat 0)%Q with 1%Q in Hf. rewrite Qmult_1_r in Hf.
    split; assumption.
  - cbn [log10_down]. destruct (Qle_bool 1 q) eqn:E.
    + apply Qle_bool_iff in E. replace (k - k) with 0 by lia. split; assumption.
    + assert (L : (q < 1)%Q).
      { apply Qnot_le_lt. intros L. apply Qle_bool_iff in L. congruence. }
      assert (G0 : (0 < q * 10)%Q).
      { apply Qmult_lt_0_compat; [exact H0 | reflexivity]. }
      assert (G1 : (q * 10 < 10)%Q).
      { setoid_replace 10%Q with (1 * 10)%Q at 2 by reflexivity.
        apply Qmult_lt_compat_r; [reflexivity | exact L]. }
      assert (G2 : (1 <= q * 10 * 10 ^ Z.of_nat f)%Q).
      { replace (Z.of_nat (S f)) with (Z.of_nat f + 1) in Hf by lia.
        rewrite pow10_succ in Hf.
        setoid_replace (q * 10 * 10 ^ Z.of_nat f)%Q
          with (q * (10 ^ Z.of_nat f * 10))%Q by ring.
        exact Hf. }
      destruct (IH (q * 10)%Q (k - 1) G0 G1 G2) as [A B].
      set (r := log10_down f (q * 10) (k - 1)) in *.
      replace (r - (k - 1)) with (r - k + 1) in A by lia.
      replace (r - (k - 1) + 1) with (r - k + 1 + 1) in B by lia.
      rewrite pow10_succ in A. rewrite (pow10_succ (r - k + 1)) in B.
      split.
      * apply (Qmult_le_r _ _ 10); [reflexivity | exact A].
      * apply (Qmult_lt_r _ _ 10); [reflexivity | exact B].
Qed.

Lemma pow2_le_pow10 (n : nat) : (2 ^ Z.of_nat n <= 10 ^ Z.of_nat n)%Z.
Proof. apply Z.pow_le_mono_l. lia. Qed.

(** [Qfloor_log10 q] is the integer [k] with [10^k <= q < 10^(k+1)]. *)
Lemma Qfloor_log10_spec (q : Q) :
  (0 < q)%Q ->
  (10 ^ Qfloor_log10 q <= q /\ q < 10 ^ (Qfloor_log10 q + 1))%Q.
Proof.
  intros Hq. unfold Qfloor_log10.
  assert (Hn : 0 < Qnum q).
  { unfold Qlt in Hq. simpl in Hq. lia. }
  destruct (Qle_bool 1 q) eqn:E.
  - apply Qle_bool_iff in E.
    pose proof (log10_up_spec (S (Z.to_nat (Z.log2 (Qnum q)))) q 0 E) as Hspec.
    rewrite !Z.sub_0_r in Hspec. apply Hspec.
    (* q <= num < 2^(log2 num + 1) <= 10^(log2 num + 1) *)
    set (n := S (Z.to_nat (Z.log2 (Qnum q)))).
    apply Qlt_le_trans with (inject_Z (2 ^ Z.of_nat n)).
    + pose proof (Z.log2_spec (Qnum q) Hn) as [_ U].
      pose proof (Z.log2_nonneg (Qnum q)).
      replace (Z.of_nat n) with (Z.succ (Z.log2 (Qnum q))) by (subst n; lia).
      unfold Qlt, inject_Z. simpl.
      pose proof (Pos2Z.is_pos (Qden q)). nia.
    + rewrite <- (Zpower_Qpower 10) by lia.
      rewrite <- Zle_Qle. apply pow2_le_pow10.
  - assert (L : (q < 1)%Q).
    { apply Qnot_le_lt. intros L. apply Qle_bool_iff in L. congruence. }
    pose proof (log10_down_spec (S (Pos.to_nat (Pos.size (Qden q)))) q 0 Hq) as Hspec.
    rewrite !Z.sub_0_r in Hspec. apply Hspec.
    + eapply Qlt_trans; [exact L | reflexivity].
    + set (n := S (Pos.to_nat (Pos.size (Qden q)))).
      (* 1 <= num, den < 2^size den <= 10^n *)
      apply Qle_trans with (q * inject_Z (Zpos (Qden q)))%Q.
      * unfold Qle, Qmult, inject_Z. simpl. nia.
      * apply Qmult_le_l; [exact Hq|].
        rewrite <- (Zpower_Qpower 10) by lia. rewrite <- Zle_Qle.
        apply Z.le_trans with (2 ^ Z.of_nat n); [|apply pow2_le_pow10].
        pose proof (Pos.size_gt (Qden q)) as G.
        apply Pos2Z.pos_lt_pos in G. rewrite Pos2Z.inj_pow in G.
        subst n. rewrite Nat2Z.inj_succ, positive_nat_Z, Z.pow_succ_r by lia.
        lia.
Qed.

Lemma floor_log10_spec (q : Q) :
  (0 < q)%Q ->
  exists k, floor_log10 (Num q) = int k /\ (10 ^ k <= q /\ q < 10 ^ (k + 1))%Q.
Proof.
  intros Hq. exists (Qfloor_log10 q). split.
  - unfold floor_log10. simpl ToNumber. cbv iota beta.
    apply Qlt_bool_iff in Hq. rewrite Hq. reflexivity.
  - apply Qfloor_log10_spec. exact Hq.
Qed.

(** *** [getTicks] *)

(** C5: [getTicks(0, 100, 400)] with [minTickPixels = 40] accepts the
    step 50 on the grid starting at 0; the value 100 lies on that grid and
    within [0, 100], yet the ticks returned are 0 and 50 only: the tick
    loop stops one grid point short of [high]. *)
Theorem getTicks_0_100 :
  let st := tickVars plot0 (int 0) (int 100) (int 400) in
  st.(t_scale) = Num 50 /\ st.(t_low) = Num 0 /\ st.(t_high) = Num 100 /\
  st.(t_nTicks) = Num 2 /\
  JS.add st.(t_low) (JS.mul (int 2) st.(t_scale)) = Num 100 /\
  JS.ge (Num 100) (int 0) && JS.le (Num 100) (int 100) = true /\
  getTicks plot0 (int 0) (int 100) (int 400) = [Num 0; Num 50].
Proof. by_evaluation. Qed.

(** The example of the specification: [getTicks(0, 97, 400)] accepts the
    step 20 (spacing 80 pixels) and returns 0, 20, 40, 60, 80. *)
Lemma getTicks_0_97 :
  let st := tickVars plot0 (int 0) (int 97) (int 400) in
  st.(t_scale) = Num 20 /\ st.(t_spacing) = Num 80 /\
  getTicks plot0 (int 0) (int 97) (int 400)
    = [Num 0; Num 20; Num 40; Num 60; Num 80].
Proof. by_evaluation. Qed.

(** *** The bounds check of [renderData] *)

(** A series that is passed over leaves the canvas untouched and the loop
    goes on with the next series. *)
Lemma renderSeries_skip (p : Plot) (done : list Data) (uc : bool) (d : Data) :
  outOfBounds p d = true ->
  renderSeries (p, done, uc) d = Ok (p, done ++ [d], uc).
Proof. intros H. unfold renderSeries. rewrite H. reflexivity. Qed.

(** With a pinned zoom [a .. b] the check is the intended one: the series
    is passed over exactly when its first x lies beyond [b] or its last x
    before [a]. *)
Lemma outOfBounds_zoomed (p : Plot) (d : Data) (a b first last : Q) :
  p.(zoom).(xMin) = Num a -> p.(zoom).(xMax) = Num b ->
  aget d.(x) 0 = Num first -> aget d.(x) (alen d.(x) - 1) = Num last ->
  (outOfBounds p d = true <-> (b < first)%Q \/ (last < a)%Q).
Proof.
  intros Ha Hb Hf Hl. unfold outOfBounds. rewrite Ha, Hb, Hf, Hl.
  rewrite orb_true_iff.
  change (JS.gt (Num first) (Num b)) with (Qlt_bool b first).
  change (JS.lt (Num last) (Num a)) with (Qlt_bool last a).
  rewrite !Qlt_bool_iff. reflexivity.
Qed.

(** In auto-fit mode the zoom bounds are [null], which the comparison
    reads as 0: the series is passed over as soon as its first x is
    positive or its last x negative. *)
Lemma outOfBounds_autofit (p : Plot) (d : Data) (first last : Q) :
  p.(zoom).(xMin) = Null -> p.(zoom).(xMax) = Null ->
  aget d.(x) 0 = Num first -> aget d.(x) (alen d.(x) - 1) = Num last ->
  (outOfBounds p d = true <-> (0 < first)%Q \/ (last < 0)%Q).
Proof.
  intros Ha Hb Hf Hl. unfold outOfBounds. rewrite Ha, Hb, Hf, Hl.
  rewrite orb_true_iff.
  change (JS.gt (Num first) Null) with (Qlt_bool 0 first).
  change (JS.lt (Num last) Null) with (Qlt_bool last 0).
  rewrite !Qlt_bool_iff. reflexivity.
Qed.

(** C2: in auto-fit mode the series x = [1, 2, 3, 4] spans the whole
    x-domain [1 .. 4] that [preprocess] computes, yet [renderData] passes
    it over: the render pass issues no drawing call after the axes. *)
Theorem renderData_autofit_skips_positive_series :
  exists p1 p2 d,
    preprocess positiveSeries = Ok p1 /\
    p1.(zoom) = mkZoom Null Null Null Null /\
    p1.(data) = [d] /\
    aget d.(x) 0 = Num 1 /\ aget d.(x) (alen d.(x) - 1) = Num 4 /\
    getXCanvasPos p1 (Num 1) = Num p1.(plotXStart) /\
    getXCanvasPos p1 (Num 4) = Num p1.(width) /\
    outOfBounds (renderAxes (prerender p1)) d = true /\
    renderData (renderAxes (prerender p1)) = Ok p2 /\
    render positiveSeries = Ok p2 /\
    p2.(ctx) = (renderAxes (prerender p1)).(ctx).
Proof.
  by_evaluation.
Qed.

(** The same series shifted to start at 0 is drawn. *)
Lemma renderData_autofit_draws_series_from_zero :
  exists p,
    renderData (rendered (preprocess
                  (addData plot0 (series [0; 1; 2; 3]%Q [1; 3; 2; 5]%Q)))) = Ok p /\
    p.(ctx) = [beginPath; setStrokeStyle (Color "#0000AA");
               moveTo (Num 50) (Num 230);
               lineTo (Num (500 # 3)) (Num 125);
               lineTo (Num (850 # 3)) (Num (355 # 2));
               lineTo (Num 400) (Num 20);
               stroke].
Proof. by_evaluation. Qed.

(* ===================================================================== *)
(** * Further properties *)
(* ===================================================================== *)

(** *** [binarySearch] and the window of [setBounds] *)

Lemma bsLoop_done (a : list Q) (t : value) (lo hi : Z) :
  hi - lo <= 1 -> bsLoop a t lo hi = (lo, hi).
Proof.
  intros H. funelim (bsLoop a t lo hi).
  - lia.
  - reflexivity.
Qed.

(** X1: on an array of at most two elements the narrowing loop never
    runs: whatever the target (a number, NaN, ...), the lower result is 0
    and the upper result is [length-1], which is -1 for the empty array. *)
Theorem binarySearch_short_array (a : list Q) (t : value) :
  alen a <= 2 ->
  binarySearch a t false = 0 /\ binarySearch a t true = alen a - 1.
Proof.
  intros H. rewrite !binarySearch_unfold, bsLoop_done by lia.
  split; reflexivity.
Qed.

Lemma binarySearch_short_array_witness :
  binarySearch [3; 7]%Q (Num 100) false = 0 /\
  binarySearch [3; 7]%Q (Num 100) true = alen [3; 7]%Q - 1.
Proof.
  apply (binarySearch_short_array [3; 7]%Q (Num 100)).
  vm_compute; discriminate.
Defined.

(** The bracket for an arbitrary target: the lower end either never moved
    or satisfies [a[lo] <= t]; the upper end either never moved or
    satisfies [t < a[hi]]. *)
Lemma bsLoop_bracket_any (a : list Q) (t : Q) :
  2 <= alen a ->
  let r := bsLoop a (Num t) 0 (alen a - 1) in
  0 <= fst r /\ snd r = fst r + 1 /\ snd r <= alen a - 1 /\
  (fst r = 0 \/ JS.le (aget a (fst r)) (Num t) = true) /\
  (snd r = alen a - 1 \/ JS.le (aget a (snd r)) (Num t) = false).
Proof.
  intros Hn r.
  destruct (bsLoop_invariant a (Num t)
              (fun lo hi => 0 <= lo /\ hi <= alen a - 1 /\
                 (lo = 0 \/ JS.le (aget a lo) (Num t) = true) /\
                 (hi = alen a - 1 \/ JS.le (aget a hi) (Num t) = false)))
    with (lo := 0) (hi := alen a - 1) as [(H1 & H2 & H3 & H4) _].
  - intros lo hi Hd (Hl & Hh & Hlo & Hhi) E.
    pose proof (midpoint_between lo hi Hd). repeat split; auto; lia.
  - intros lo hi Hd (Hl & Hh & Hlo & Hhi) E.
    pose proof (midpoint_between lo hi Hd). repeat split; auto; lia.
  - repeat split; auto; lia.
  - pose proof (bsLoop_adjacent a (Num t) Hn). subst r. repeat split; auto.
Qed.

Lemma increasing_aget_le (a : list Q) (i j : Z) (u v : Q) :
  increasing a -> i <= j -> aget a i = Num u -> aget a j = Num v -> (u <= v)%Q.
Proof.
  intros Hinc Hij Hi Hj. destruct (Z.eq_dec i j) as [->|Hne].
  - rewrite Hi in Hj. injection Hj as ->. apply Qle_refl.
  - apply Qlt_le_weak. apply (increasing_aget a i j u v Hinc); auto. lia.
Qed.

(** In a strictly increasing array, an index whose element is at most
    [t] while the next element is not, is the largest such index. *)
Lemma largest_le_adjacent (a : list Q) (t : Q) (i : Z) :
  increasing a -> 0 <= i -> i + 1 <= alen a - 1 ->
  JS.le (aget a i) (Num t) = true ->
  JS.le (aget a (i + 1)) (Num t) = false ->
  largest_le a t i.
Proof.
  intros Hinc H0 Hn Hlo Hup. split; [exact Hlo|].
  intros j Hj. destruct (Z_le_gt_dec j i) as [|Hgt]; [assumption|exfalso].
  apply le_aget in Hj as [v [Ej Hv]].
  destruct (aget_in_range a (i + 1)) as [w Ew]; [lia|].
  rewrite Ew in Hup.
  assert (Hw : (w <= v)%Q)
    by (apply (increasing_aget_le a (i + 1) j w v Hinc); auto; lia).
  assert (F : JS.le (Num w) (Num t) = true).
  { apply le_Num. eapply Qle_trans; eauto. }
  congruence.
Qed.

(** The lower result grows with the target. *)
Lemma binarySearch_monotone (a : list Q) (s e : Q) :
  increasing a -> 2 <= alen a -> (s <= e)%Q ->
  binarySearch a (Num s) false <= binarySearch a (Num e) false.
Proof.
  intros Hinc Hn Hse. rewrite !binarySearch_unfold.
  destruct (bsLoop_bracket_any a s Hn) as (Hs0 & Hs1 & Hs2 & Hslo & _).
  destruct (bsLoop_bracket_any a e Hn) as (He0 & He1 & He2 & _ & Hehi).
  set (ls := fst (bsLoop a (Num s) 0 (alen a - 1))) in *.
  set (le' := fst (bsLoop a (Num e) 0 (alen a - 1))) in *.
  set (he := snd (bsLoop a (Num e) 0 (alen a - 1))) in *.
  destruct (Z_le_gt_dec ls le') as [|Hgt]; [assumption|exfalso].
  destruct Hslo as [Hz | Hslo]; [lia|].
  destruct Hehi as [Hz | Hehi]; [lia|].
  apply le_aget in Hslo as (u & Eu & Hu).
  destruct (aget_in_range a he) as [w Ew]; [lia|].
  rewrite Ew in Hehi.
  assert (Hwu : (w <= u)%Q) by (apply (increasing_aget_le a he ls w u Hinc); auto; lia).
  assert (F : JS.le (Num w) (Num e) = true).
  { apply le_Num. eapply Qle_trans; [exact Hwu|]. eapply Qle_trans; eauto. }
  congruence.
Qed.

Lemma setBounds_startInd (d : Data) (s e : value) :
  (setBounds d s e).(startInd) = binarySearch d.(x) s false.
Proof.
  unfold setBounds. cbn [filter with_bounds].
  destruct (filter d); [destruct (JS.gt _ _)|]; reflexivity.
Qed.

Lemma setBounds_stopInd (d : Data) (s e : value) :
  (setBounds d s e).(stopInd) = binarySearch d.(x) e true.
Proof.
  unfold setBounds. cbn [filter with_bounds].
  destruct (filter d); [destruct (JS.gt _ _)|]; reflexivity.
Qed.

Lemma setBounds_x (d : Data) (s e : value) : (setBounds d s e).(x) = d.(x).
Proof.
  unfold setBounds. cbn [filter with_bounds].
  destruct (filter d); [destruct (JS.gt _ _)|]; reflexivity.
Qed.

(** X2: for a strictly increasing x array with at least two points and a
    requested range [s <= e], [setBounds] yields a window inside the
    series with at least two points: [0 <= startInd < stopInd <= length-1]. *)
Theorem setBounds_window_ordered (d : Data) (s e : Q) :
  increasing d.(x) -> 2 <= alen d.(x) -> (s <= e)%Q ->
  0 <= (setBounds d (Num s) (Num e)).(startInd)
    < (setBounds d (Num s) (Num e)).(stopInd) /\
  (setBounds d (Num s) (Num e)).(stopInd) <= alen d.(x) - 1.
Proof.
  intros Hinc Hn Hse. rewrite setBounds_startInd, setBounds_stopInd.
  pose proof (binarySearch_monotone d.(x) s e Hinc Hn Hse) as Hm.
  rewrite !binarySearch_unfold in *.
  destruct (bsLoop_bracket_any d.(x) s Hn) as (Hs0 & _).
  destruct (bsLoop_bracket_any d.(x) e Hn) as (_ & He1 & He2 & _).
  lia.
Qed.

Lemma setBounds_window_ordered_witness :
  0 <= (setBounds series5 (Num (1 # 2)) (Num (5 # 2))).(startInd)
    < (setBounds series5 (Num (1 # 2)) (Num (5 # 2))).(stopInd) /\
  (setBounds series5 (Num (1 # 2)) (Num (5 # 2))).(stopInd) <= alen series5.(x) - 1.
Proof.
  apply (setBounds_window_ordered series5 (1 # 2) (5 # 2));
    first [reflexivity | vm_compute; discriminate].
Defined.

(** X3: when the requested range lies inside the data,
    [x[0] <= s <= e < x[length-1]], the window of [setBounds] covers it:
    [x[startInd] <= s] and [e < x[stopInd]], with [startInd] the last
    point not after [s] and [stopInd] the first point after [e]. *)
Theorem setBounds_window_covers (d : Data) (s e : Q) :
  increasing d.(x) -> 2 <= alen d.(x) ->
  JS.le (aget d.(x) 0) (Num s) = true -> (s <= e)%Q ->
  JS.lt (Num e) (aget d.(x) (alen d.(x) - 1)) = true ->
  let w := setBounds d (Num s) (Num e) in
  largest_le d.(x) s w.(startInd) /\
  JS.lt (Num e) (aget d.(x) w.(stopInd)) = true /\
  JS.le (aget d.(x) (w.(stopInd) - 1)) (Num e) = true.
Proof.
  intros Hinc Hn H0 Hse Hlast w. subst w.
  rewrite setBounds_startInd, setBounds_stopInd.
  assert (Hs : JS.lt (Num s) (aget d.(x) (alen d.(x) - 1)) = true).
  { destruct (aget_in_range d.(x) (alen d.(x) - 1)) as [v E]; [lia|].
    rewrite E in *. apply lt_Num. apply lt_Num in Hlast.
    eapply Qle_lt_trans; eauto. }
  assert (He : JS.le (aget d.(x) 0) (Num e) = true).
  { apply le_aget in H0 as (u & Eu & Hu). apply le_aget. exists u. split; auto.
    eapply Qle_trans; eauto. }
  assert (upper : forall t, JS.lt (Num t) (aget d.(x) (alen d.(x) - 1)) = true ->
            forall h, h <= alen d.(x) - 1 -> 0 <= h ->
            (h = alen d.(x) - 1 \/ JS.le (aget d.(x) h) (Num t) = false) ->
            JS.le (aget d.(x) h) (Num t) = false).
  { intros t Ht h Hh Hh0 [-> | Hf]; [|exact Hf].
    destruct (aget_in_range d.(x) (alen d.(x) - 1)) as [v E]; [lia|].
    rewrite E in *. apply lt_Num in Ht.
    destruct (JS.le (Num v) (Num t)) eqn:F; [|reflexivity].
    apply le_Num in F. exfalso. exact (Qlt_not_le _ _ Ht F). }
  destruct (bsLoop_bracket d.(x) s Hn H0) as (Hls & Hadjs & Hhs & Hlos & Hhis).
  destruct (bsLoop_bracket d.(x) e Hn He) as (Hl & Hadj & Hh & Hloe & Hhi).
  rewrite !binarySearch_unfold.
  set (rs := bsLoop (x d) (Num s) 0 (alen (x d) - 1)) in *.
  set (r := bsLoop (x d) (Num e) 0 (alen (x d) - 1)) in *.
  split; [|split].
  - apply largest_le_adjacent; auto; try lia.
    rewrite <- Hadjs. apply (upper s Hs); auto; lia.
  - pose proof (upper e Hlast (snd r) Hh ltac:(lia) Hhi) as U.
    destruct (aget_in_range d.(x) (snd r)) as [w Ew]; [lia|].
    rewrite Ew in *. apply lt_Num. apply Qnot_le_lt. intros L.
    apply le_Num in L. congruence.
  - replace (snd r - 1) with (fst r) by lia. exact Hloe.
Qed.

Lemma setBounds_window_covers_witness :
  let w := setBounds series5 (Num (1 # 2)) (Num (5 # 2)) in
  largest_le series5.(x) (1 # 2) w.(startInd) /\
  JS.lt (Num (5 # 2)) (aget series5.(x) w.(stopInd)) = true /\
  JS.le (aget series5.(x) (w.(stopInd) - 1)) (Num (5 # 2)) = true.
Proof.
  apply (setBounds_window_covers series5 (1 # 2) (5 # 2));
    first [reflexivity | vm_compute; discriminate].
Defined.

(** *** The cursor is derived state *)

Lemma same_table_refl (f : option Filter) : same_table f f.
Proof. destruct f; simpl; auto. Qed.

Lemma same_table_trans (f g h : option Filter) :
  same_table f g -> same_table g h -> same_table f h.
Proof.
  destruct f, g, h; simpl; try tauto.
  intros [A B] [C D]. split; congruence.
Qed.

Lemma same_series_refl (d : Data) : same_series d d.
Proof. unfold same_series. repeat split; auto using same_table_refl. Qed.

Lemma same_series_trans (a b c : Data) :
  same_series a b -> same_series b c -> same_series a c.
Proof.
  unfold same_series. intros (A1 & A2 & A3 & A4 & A5 & A6 & A7 & A8)
                             (B1 & B2 & B3 & B4 & B5 & B6 & B7 & B8).
  repeat split; try congruence. eapply same_table_trans; eauto.
Qed.

Lemma updateFilter_same_series (d d' : Data) (i : Z) (b : bool) :
  updateFilter d i = Ok (d', b) -> same_series d d'.
Proof.
  unfold updateFilter. destruct (filter d) as [f|] eqn:Hf; [|discriminate].
  destruct (JS.seq (int i) (nextInd f)); intros [= <- <-].
  - unfold same_series. cbn. rewrite Hf. simpl. repeat split; reflexivity.
  - apply same_series_refl.
Qed.

Lemma replayFilter_same_series (inds : list Z) :
  forall d d' bs, replayFilter d inds = Ok (d', bs) -> same_series d d'.
Proof.
  induction inds as [|i inds IH]; intros d d' bs H.
  - injection H as <- <-. apply same_series_refl.
  - simpl in H. destruct (updateFilter d i) as [[d1 b]|] eqn:E1; [|discriminate].
    simpl in H. destruct (replayFilter d1 inds) as [[d2 bs2]|] eqn:E2; [|discriminate].
    simpl in H. injection H as <- <-.
    eapply same_series_trans;
      [eapply updateFilter_same_series; eauto | eapply IH; eauto].
Qed.

(** [setBounds] and [resetBounds] read the points and the filter table
    only: the window and the cursor they find are overwritten. *)
Lemma setBounds_reads_table (d d' : Data) (s e : value) :
  x d' = x d -> y d' = y d -> plotType d' = plotType d ->
  hasFilter d' = hasFilter d -> hasColor d' = hasColor d ->
  same_table (filter d) (filter d') ->
  setBounds d' s e = setBounds d s e.
Proof.
  destruct d as [xs ys pt fl hf hc si ei], d' as [xs' ys' pt' fl' hf' hc' si' ei'].
  cbn. intros -> -> -> -> -> T.
  destruct fl as [[ix cs cur nxt]|], fl' as [[ix' cs' cur' nxt']|];
    simpl in T; try contradiction; [|reflexivity].
  destruct T as [-> ->]. reflexivity.
Qed.

Lemma resetBounds_reads_table (d d' : Data) :
  x d' = x d -> y d' = y d -> plotType d' = plotType d ->
  hasFilter d' = hasFilter d -> hasColor d' = hasColor d ->
  same_table (filter d) (filter d') ->
  resetBounds d' = resetBounds d.
Proof.
  destruct d as [xs ys pt fl hf hc si ei], d' as [xs' ys' pt' fl' hf' hc' si' ei'].
  cbn. intros -> -> -> -> -> T.
  destruct fl as [[ix cs cur nxt]|], fl' as [[ix' cs' cur' nxt']|];
    simpl in T; try contradiction; [|reflexivity].
  destruct T as [-> ->]. reflexivity.
Qed.

Lemma setBounds_same_series_fields (d : Data) (s e : value) :
  x (setBounds d s e) = x d /\ y (setBounds d s e) = y d /\
  plotType (setBounds d s e) = plotType d /\
  hasFilter (setBounds d s e) = hasFilter d /\
  hasColor (setBounds d s e) = hasColor d /\
  same_table (filter d) (filter (setBounds d s e)).
Proof.
  unfold setBounds. cbn [filter with_bounds].
  destruct (filter d) as [f|] eqn:Hf; [destruct (JS.gt _ _)|];
    cbn; rewrite ?Hf; simpl; repeat split; auto.
Qed.

Lemma resetBounds_same_series_fields (d : Data) :
  x (resetBounds d) = x d /\ y (resetBounds d) = y d /\
  plotType (resetBounds d) = plotType d /\
  hasFilter (resetBounds d) = hasFilter d /\
  hasColor (resetBounds d) = hasColor d /\
  same_table (filter d) (filter (resetBounds d)).
Proof.
  unfold resetBounds. cbn [filter with_bounds].
  destruct (filter d) as [f|] eqn:Hf; [destruct (JS.seq _ _)|];
    cbn; rewrite ?Hf; simpl; repeat split; auto.
Qed.

(** X4: the filter cursor is resynchronized from scratch: whatever
    [updateFilter] calls were made on a series, a following [setBounds]
    or [resetBounds] gives exactly the state it gives on the untouched
    series. *)
Theorem bounds_forget_cursor_history
        (d d' : Data) (inds : list Z) (bs : list bool) (s e : value) :
  replayFilter d inds = Ok (d', bs) ->
  setBounds d' s e = setBounds d s e /\ resetBounds d' = resetBounds d.
Proof.
  intros H. apply replayFilter_same_series in H.
  destruct H as (A1 & A2 & A3 & A4 & A5 & _ & _ & A8).
  split; [apply setBounds_reads_table | apply resetBounds_reads_table]; assumption.
Qed.

Lemma bounds_forget_cursor_history_witness :
  exists d' bs,
    replayFilter (resetBounds series5) [1; 2; 3; 4] = Ok (d', bs) /\
    setBounds d' (Num 3) (Num 4) = setBounds (resetBounds series5) (Num 3) (Num 4) /\
    resetBounds d' = resetBounds (resetBounds series5).
Proof.
  do 2 eexists. split; [vm_compute; reflexivity|].
  eapply (bounds_forget_cursor_history (resetBounds series5) _ [1; 2; 3; 4]).
  vm_compute; reflexivity.
Defined.

(** X5: windows do not accumulate: the last of two successive
    [setBounds]/[resetBounds] calls alone decides the window and the
    cursor; in particular both are idempotent. *)
Theorem bounds_last_call_wins (d : Data) (s0 e0 s e : value) :
  setBounds (setBounds d s0 e0) s e = setBounds d s e /\
  setBounds (resetBounds d) s e = setBounds d s e /\
  resetBounds (setBounds d s e) = resetBounds d /\
  resetBounds (resetBounds d) = resetBounds d.
Proof.
  destruct (setBounds_same_series_fields d s0 e0) as (A1 & A2 & A3 & A4 & A5 & A6).
  destruct (setBounds_same_series_fields d s e) as (C1 & C2 & C3 & C4 & C5 & C6).
  destruct (resetBounds_same_series_fields d) as (B1 & B2 & B3 & B4 & B5 & B6).
  repeat split;
    first [apply setBounds_reads_table | apply resetBounds_reads_table]; assumption.
Qed.

(** *** Counting transitions *)

(** One call: the cursor advances by one exactly when [true] is
    returned, and that happens exactly when the index equals the next
    boundary [index[k+1]]. *)
Lemma updateFilter_step (f0 : Filter) (d : Data) (k i : Z) :
  cursor_at f0 d k -> i <> -1 ->
  exists d' b, updateFilter d i = Ok (d', b) /\
               cursor_at f0 d' (k + (if b then 1 else 0)) /\
               b = JS.seq (int i) (aget f0.(index) (k + 1)).
Proof.
  intros (f & Hf & Hi & Hc & Hk & Hr & Hn) H0.
  unfold updateFilter. rewrite Hf.
  destruct (JS.seq (int i) (nextInd f)) eqn:E.
  - destruct Hn as [Hn | [Hlast Hn]].
    + rewrite Hn in E.
      destruct (Z_lt_dec (k + 1) (alen (index f0))) as [Hin | Hout].
      * do 2 eexists. split; [reflexivity|]. cbv beta iota.
        split; [|symmetry; exact E].
        eexists. split; [reflexivity|].
        cbn [index colors curFiltInd nextInd with_cursor].
        rewrite Hk, Hi. autorewrite with js_int.
        assert (L : (k + 1 <? alen (index f0)) = true) by (apply Z.ltb_lt; lia).
        rewrite L.
        repeat (split; [first [reflexivity | assumption | lia]|]).
        left. reflexivity.
      * rewrite (aget_out_of_range (index f0) (k + 1)) in E by lia.
        discriminate E.
    + rewrite Hn, seq_int in E. apply Z.eqb_eq in E. lia.
  - exists d, false. split; [reflexivity|]. split.
    + rewrite Z.add_0_r. exists f.
      repeat (split; [first [assumption | reflexivity | lia]|]). exact Hn.
    + destruct Hn as [Hn | [Hlast Hn]].
      * rewrite <- Hn. symmetry. exact E.
      * rewrite (aget_out_of_range (index f0) (k + 1)) by lia. reflexivity.
Qed.

Lemma transitions_cons (b : bool) (bs : list bool) :
  Z.of_nat (transitions (b :: bs))
  = (if b then 1 else 0) + Z.of_nat (transitions bs).
Proof.
  unfold transitions. destruct b; cbn [List.filter List.length];
    rewrite ?Nat2Z.inj_succ; lia.
Qed.

Lemma replayFilter_count (f0 : Filter) (inds : list Z) :
  Forall (fun i => i <> -1) inds ->
  forall d k, cursor_at f0 d k ->
  exists d' bs, replayFilter d inds = Ok (d', bs) /\
                cursor_at f0 d' (k + Z.of_nat (transitions bs)).
Proof.
  induction 1 as [|i inds Hi _ IH]; intros d k Hc.
  - exists d, []. split; [reflexivity|]. simpl. rewrite Z.add_0_r. assumption.
  - destruct (updateFilter_step f0 d k i Hc Hi) as (d1 & b & E & Hc1 & _).
    destruct (IH d1 _ Hc1) as (d2 & bs & E2 & Hc2).
    exists d2, (b :: bs). split.
    + simpl. rewrite E. simpl. rewrite E2. reflexivity.
    + rewrite transitions_cons. rewrite Z.add_assoc. exact Hc2.
Qed.

(** X6: after [resetBounds] on a filter with [n >= 1] boundaries, the
    number of [true] answers of any sequence of [updateFilter] calls
    (with indices other than the reserved -1) is the cursor position:
    [curFiltInd] equals the count, so at most [n - 1] colour changes are
    ever reported. *)
Theorem transitions_are_cursor_moves
        (d : Data) (f0 : Filter) (inds : list Z) :
  d.(filter) = Some f0 -> 1 <= alen f0.(index) ->
  Forall (fun i => i <> -1) inds ->
  exists d' bs f,
    replayFilter (resetBounds d) inds = Ok (d', bs) /\
    d'.(filter) = Some f /\
    f.(curFiltInd) = int (Z.of_nat (transitions bs)) /\
    Z.of_nat (transitions bs) <= alen f0.(index) - 1.
Proof.
  intros Hf Hn Hinds.
  pose proof (resetBounds_cursor d f0 Hf Hn) as H0.
  destruct (replayFilter_count f0 inds Hinds _ 0 H0) as (d' & bs & E & Hc).
  rewrite Z.add_0_l in Hc. destruct Hc as (f & Hf' & _ & _ & Hk & Hr & _).
  exists d', bs, f. repeat split; auto; lia.
Qed.

Lemma transitions_are_cursor_moves_witness :
  exists d' bs f,
    replayFilter (resetBounds series5) [1; 2; 2; 4; 4; 3] = Ok (d', bs) /\
    d'.(filter) = Some f /\
    f.(curFiltInd) = int (Z.of_nat (transitions bs)) /\
    Z.of_nat (transitions bs) <= alen filter024.(index) - 1.
Proof.
  apply (transitions_are_cursor_moves series5 filter024 [1; 2; 2; 4; 4; 3]).
  - reflexivity.
  - vm_compute; discriminate.
  - repeat constructor; discriminate.
Defined.

(** *** A full pass over the series *)

Lemma Zrange_nil (lo hi : Z) : hi < lo -> Zrange lo hi = [].
Proof.
  intros H. unfold Zrange. replace (Z.to_nat (hi + 1 - lo)) with O by lia.
  reflexivity.
Qed.

Lemma Zrange_cons (lo hi : Z) : lo <= hi -> Zrange lo hi = lo :: Zrange (lo + 1) hi.
Proof.
  intros H. unfold Zrange.
  replace (Z.to_nat (hi + 1 - lo)) with (S (Z.to_nat (hi + 1 - (lo + 1)))) by lia.
  cbn [List.seq map]. f_equal; [lia|].
  rewrite <- seq_shift, map_map. apply map_ext. intros k. lia.
Qed.

Lemma In_Zrange (lo hi i : Z) : In i (Zrange lo hi) <-> lo <= i <= hi.
Proof.
  unfold Zrange. rewrite in_map_iff. split.
  - intros (k & <- & Hk). apply in_seq in Hk. lia.
  - intros H. exists (Z.to_nat (i - lo)). split; [lia|]. apply in_seq. lia.
Qed.

Lemma aget_map_inject (B : list Z) (j : Z) :
  0 <= j < alen B -> aget (map inject_Z B) j = int (nth (Z.to_nat j) B 0).
Proof.
  intros H. unfold aget. destruct (j <? 0) eqn:E; [apply Z.ltb_lt in E; lia|].
  unfold alen in H.
  rewrite nth_error_map, (nth_error_nth' B 0) by lia. reflexivity.
Qed.

Lemma increasing_map_inject (B : list Z) (i j : Z) :
  increasing (map inject_Z B) -> 0 <= i -> i < j -> j < alen B ->
  nth (Z.to_nat i) B 0 < nth (Z.to_nat j) B 0.
Proof.
  intros Hinc H0 Hij Hj.
  pose proof (increasing_aget (map inject_Z B) i j _ _ Hinc Hij
                (aget_map_inject B i ltac:(lia)) (aget_map_inject B j ltac:(lia))) as L.
  unfold Qlt, inject_Z in L. simpl in L. lia.
Qed.

(** Passing over [lo .. hi] with every remaining boundary at or after
    [lo]: the cursor ends on the last boundary that is at most [hi]. *)
Lemma replayFilter_pass (f0 : Filter) (B : list Z) (hi : Z) :
  f0.(index) = map inject_Z B -> increasing f0.(index) ->
  forall (n : nat) (lo : Z) (d : Data) (k : Z),
    n = Z.to_nat (hi + 1 - lo) -> 0 <= lo ->
    cursor_at f0 d k ->
    (forall j, k < j < alen B -> lo <= nth (Z.to_nat j) B 0) ->
    exists d' bs k',
      replayFilter d (Zrange lo hi) = Ok (d', bs) /\
      cursor_at f0 d' k' /\ k' = k + Z.of_nat (transitions bs) /\
      (forall j, k' < j < alen B -> Z.max lo (hi + 1) <= nth (Z.to_nat j) B 0).
Proof.
  intros HB Hinc. induction n as [|n IH]; intros lo d k Hn H0 Hc Hnext.
  - rewrite Zrange_nil by lia. exists d, [], k. split; [reflexivity|].
    split; [assumption|]. split; [simpl; lia|].
    intros j Hj. specialize (Hnext j Hj). lia.
  - rewrite Zrange_cons by lia.
    destruct (updateFilter_step f0 d k lo Hc ltac:(lia)) as (d1 & b & E & Hc1 & Hb).
    assert (Hlen : alen (index f0) = alen B).
    { rewrite HB. unfold alen. rewrite length_map. reflexivity. }
    assert (Hnext1 : forall j, k + (if b then 1 else 0) < j < alen B ->
                               lo + 1 <= nth (Z.to_nat j) B 0).
    { intros j Hj.
      destruct (Z_lt_dec (k + 1) (alen B)) as [Hin|Hout]; [|destruct b; lia].
      destruct Hc as (_ & _ & _ & _ & _ & Hk0 & _).
      rewrite HB, aget_map_inject, seq_int in Hb by lia.
      rewrite HB in Hinc.
      destruct b.
      - symmetry in Hb. apply Z.eqb_eq in Hb.
        pose proof (increasing_map_inject B (k + 1) j Hinc ltac:(lia) ltac:(lia) ltac:(lia)).
        lia.
      - symmetry in Hb. apply Z.eqb_neq in Hb.
        pose proof (Hnext (k + 1) ltac:(lia)).
        destruct (Z.eq_dec j (k + 1)) as [->|Hne]; [lia|].
        pose proof (increasing_map_inject B (k + 1) j Hinc ltac:(lia) ltac:(lia) ltac:(lia)).
        lia. }
    destruct (IH (lo + 1) d1 _ ltac:(lia) ltac:(lia) Hc1 Hnext1)
      as (d2 & bs & k2 & E2 & Hc2 & Hk2 & Hnext2).
    exists d2, (b :: bs), k2. split.
    + simpl. rewrite E. simpl. rewrite E2. reflexivity.
    + split; [assumption|]. split.
      * rewrite transitions_cons. lia.
      * intros j Hj. specialize (Hnext2 j Hj). lia.
Qed.

(** X7: one full pass reports every boundary once.  For a filter whose
    boundaries are strictly increasing integers, all but the first lying
    in [1 .. length-1], replaying [updateFilter] over the window of
    [resetBounds] (the indices [1 .. length-1] that [renderData] visits)
    returns [true] exactly [n - 1] times and leaves the cursor on the
    last colour. *)
Theorem full_pass_reports_every_boundary
        (d : Data) (f0 : Filter) (B : list Z) :
  d.(filter) = Some f0 ->
  f0.(index) = map inject_Z B -> increasing f0.(index) -> 1 <= alen B ->
  (forall j, 1 <= j < alen B -> 1 <= nth (Z.to_nat j) B 0 <= alen d.(x) - 1) ->
  exists d' bs f,
    replayFilter (resetBounds d) (windowIndices (resetBounds d)) = Ok (d', bs) /\
    Z.of_nat (transitions bs) = alen B - 1 /\
    d'.(filter) = Some f /\ f.(curFiltInd) = int (alen B - 1).
Proof.
  intros Hf HB Hinc Hn Hin.
  assert (Hlen : alen (index f0) = alen B).
  { rewrite HB. unfold alen. rewrite length_map. reflexivity. }
  pose proof (resetBounds_cursor d f0 Hf ltac:(lia)) as H0.
  assert (W : windowIndices (resetBounds d) = Zrange 1 (alen d.(x) - 1)).
  { unfold windowIndices, resetBounds. cbn [filter with_bounds].
    destruct (filter d); [destruct (JS.seq _ _)|]; reflexivity. }
  rewrite W.
  destruct (replayFilter_pass f0 B (alen d.(x) - 1) HB Hinc _ 1 (resetBounds d) 0
              eq_refl ltac:(lia) H0) as (d' & bs & k' & E & Hc & Hk & Hlast).
  { intros j Hj. specialize (Hin j ltac:(lia)). lia. }
  assert (Hk' : k' = alen B - 1).
  { destruct Hc as (_ & _ & _ & _ & _ & Hr & _). rewrite Hlen in Hr.
    destruct (Z_lt_dec k' (alen B - 1)) as [Hlt|]; [exfalso|lia].
    specialize (Hlast (k' + 1) ltac:(lia)). specialize (Hin (k' + 1) ltac:(lia)). lia. }
  destruct Hc as (f & Hf' & _ & _ & Hcur & _).
  exists d', bs, f. repeat split; auto; [lia|]. rewrite Hcur, Hk'. reflexivity.
Qed.

Lemma full_pass_reports_every_boundary_witness :
  exists d' bs f,
    replayFilter (resetBounds series5) (windowIndices (resetBounds series5))
      = Ok (d', bs) /\
    Z.of_nat (transitions bs) = alen [0; 2; 4] - 1 /\
    d'.(filter) = Some f /\ f.(curFiltInd) = int (alen [0; 2; 4] - 1).
Proof.
  apply (full_pass_reports_every_boundary series5 filter024 [0; 2; 4]).
  - reflexivity.
  - reflexivity.
  - reflexivity.
  - vm_compute; discriminate.
  - intros j Hj. change (alen [0; 2; 4]) with 3 in Hj.
    assert (C : j = 1 \/ j = 2) by lia.
    destruct C as [-> | ->]; vm_compute; split; discriminate.
Defined.

(** *** The y-extrema of a window *)

(** A scan with [widen] over numbers (missing entries read [undefined]
    and change nothing) keeps a pair [mn <= mx] that bounds every number
    seen and is attained. *)
Lemma widen_fold (vals : list value) :
  Forall (fun v => v = Undefined \/ exists q, v = Num q) vals ->
  forall mn mx : Q, (mn <= mx)%Q ->
  exists mn' mx',
    fold_left (fun b v => widen v b) vals (Num mn, Num mx) = (Num mn', Num mx') /\
    (mn' <= mn)%Q /\ (mx <= mx')%Q /\
    (forall q, In (Num q) vals -> (mn' <= q)%Q /\ (q <= mx')%Q) /\
    (mn' = mn \/ In (Num mn') vals) /\ (mx' = mx \/ In (Num mx') vals).
Proof.
  induction 1 as [|v vals Hv _ IH]; intros mn mx Hle.
  - exists mn, mx. simpl.
    refine (conj eq_refl (conj (Qle_refl _) (conj (Qle_refl _) (conj _ (conj _ _)))));
      [intros q [] | left; reflexivity | left; reflexivity].
  - destruct Hv as [-> | [q ->]].
    + destruct (IH mn mx Hle) as (mn' & mx' & E & A & B & C & D1 & D2).
      exists mn', mx'. simpl.
      refine (conj E (conj A (conj B (conj _ (conj _ _))))).
      * intros q [F|F]; [discriminate | apply (C _ F)].
      * destruct D1 as [-> | D1]; [left; reflexivity | right; right; exact D1].
      * destruct D2 as [-> | D2]; [left; reflexivity | right; right; exact D2].
    + cbn [fold_left]. unfold widen at 2. cbn [fst snd].
      change (JS.lt (Num q) (Num mn)) with (Qlt_bool q mn).
      change (JS.gt (Num q) (Num mx)) with (Qlt_bool mx q).
      destruct (Qlt_bool q mn) eqn:E1.
      * apply Qlt_bool_iff in E1.
        assert (Hq : (q <= mx)%Q) by (eapply Qle_trans; [apply Qlt_le_weak; eauto|auto]).
        destruct (IH q mx Hq) as (mn' & mx' & E & A & B & C & D1 & D2).
        exists mn', mx'.
        refine (conj E (conj _ (conj B (conj _ (conj _ _))))).
        -- eapply Qle_trans; [exact A | apply Qlt_le_weak; exact E1].
        -- intros r [[= <-]|F]; [split; [exact A | exact (Qle_trans _ _ _ Hq B)]
                                | apply (C _ F)].
        -- destruct D1 as [-> | D1]; right; [left; reflexivity | right; exact D1].
        -- destruct D2 as [-> | D2]; [left; reflexivity | right; right; exact D2].
      * assert (N1 : (mn <= q)%Q).
        { apply Qnot_lt_le. intros L. apply Qlt_bool_iff in L. congruence. }
        destruct (Qlt_bool mx q) eqn:E2.
        -- apply Qlt_bool_iff in E2.
           destruct (IH mn q N1) as (mn' & mx' & E & A & B & C & D1 & D2).
           exists mn', mx'.
           refine (conj E (conj A (conj _ (conj _ (conj _ _))))).
           ++ eapply Qle_trans; [apply Qlt_le_weak; exact E2 | exact B].
           ++ intros r [[= <-]|F]; [split; [exact (Qle_trans _ _ _ A N1) | exact B]
                                   | apply (C _ F)].
           ++ destruct D1 as [-> | D1]; [left; reflexivity | right; right; exact D1].
           ++ destruct D2 as [-> | D2]; right; [left; reflexivity | right; exact D2].
        -- assert (N2 : (q <= mx)%Q).
           { apply Qnot_lt_le. intros L. apply Qlt_bool_iff in L. congruence. }
           destruct (IH mn mx Hle) as (mn' & mx' & E & A & B & C & D1 & D2).
           exists mn', mx'.
           refine (conj E (conj A (conj B (conj _ (conj _ _))))).
           ++ intros r [[= <-]|F];
                [split; [exact (Qle_trans _ _ _ A N1) | exact (Qle_trans _ _ _ N2 B)]
                | apply (C _ F)].
           ++ destruct D1 as [-> | D1]; [left; reflexivity | right; right; exact D1].
           ++ destruct D2 as [-> | D2]; [left; reflexivity | right; right; exact D2].
Qed.

Lemma aget_numeric (a : list Q) (i : Z) :
  aget a i = Undefined \/ exists q, aget a i = Num q.
Proof.
  unfold aget. destruct (i <? 0); [left; reflexivity|].
  destruct (nth_error a (Z.to_nat i)); [right; eauto | left; reflexivity].
Qed.

Lemma aget_reads_numeric (a : list Q) (idx : list Z) :
  Forall (fun v => v = Undefined \/ exists q, v = Num q) (map (aget a) idx).
Proof.
  apply Forall_forall. intros v Hv. apply in_map_iff in Hv as (i & <- & _).
  apply aget_numeric.
Qed.

Lemma fold_left_map_widen (a : list Q) (idx : list Z) (b : value * value) :
  fold_left (fun b i => widen (aget a i) b) idx b
  = fold_left (fun b v => widen v b) (map (aget a) idx) b.
Proof. revert b. induction idx as [|i idx IH]; intros b; simpl; auto. Qed.

(** X8: for a flat series whose window starts inside the y array,
    [getYBounds] returns the true extrema of the window: every y value at
    an index of [startInd .. stopInd] lies between the two results, and
    each result is the y value at some index of the window. *)
Theorem getYBounds_flat_extrema (d : Data) (l : list Q) :
  d.(y) = YFlat l ->
  0 <= d.(startInd) <= d.(stopInd) -> d.(startInd) < alen l ->
  exists mn mx,
    getYBounds d = Ok (Num mn, Num mx) /\
    (forall i q, d.(startInd) <= i <= d.(stopInd) -> aget l i = Num q ->
                 (mn <= q)%Q /\ (q <= mx)%Q) /\
    (exists i, d.(startInd) <= i <= d.(stopInd) /\ aget l i = Num mn) /\
    (exists i, d.(startInd) <= i <= d.(stopInd) /\ aget l i = Num mx).
Proof.
  intros Hy Hw Hs. unfold getYBounds. rewrite Hy.
  destruct (aget_in_range l d.(startInd)) as [q0 E0]; [lia|].
  rewrite E0, fold_left_map_widen.
  destruct (widen_fold _ (aget_reads_numeric l (Zrange (startInd d + 1) (stopInd d)))
              q0 q0 (Qle_refl _))
    as (mn & mx & E & A & B & C & D1 & D2).
  exists mn, mx. rewrite E. split; [reflexivity|].
  assert (Hin : forall q, In (Num q) (map (aget l) (Zrange (startInd d + 1) (stopInd d))) ->
                exists i, startInd d <= i <= stopInd d /\ aget l i = Num q).
  { intros q Hq. apply in_map_iff in Hq as (i & Ei & Hi).
    apply In_Zrange in Hi. exists i. split; [lia | exact Ei]. }
  split; [|split].
  - intros i q Hi Eq. destruct (Z.eq_dec i (startInd d)) as [->|Hne].
    + rewrite E0 in Eq. injection Eq as <-. split; assumption.
    + apply C. apply in_map_iff. exists i. split; [exact Eq|].
      apply In_Zrange. lia.
  - destruct D1 as [-> | D1]; [exists (startInd d); split; [lia | exact E0] | auto].
  - destruct D2 as [-> | D2]; [exists (startInd d); split; [lia | exact E0] | auto].
Qed.

Lemma getYBounds_flat_extrema_witness :
  exists mn mx,
    getYBounds (setBounds series5 (Num 1) (Num 2)) = Ok (Num mn, Num mx) /\
    (forall i q, (setBounds series5 (Num 1) (Num 2)).(startInd) <= i
                   <= (setBounds series5 (Num 1) (Num 2)).(stopInd) ->
                 aget [1; 3; 2; 5; 4]%Q i = Num q -> (mn <= q)%Q /\ (q <= mx)%Q) /\
    (exists i, (setBounds series5 (Num 1) (Num 2)).(startInd) <= i
                 <= (setBounds series5 (Num 1) (Num 2)).(stopInd) /\
               aget [1; 3; 2; 5; 4]%Q i = Num mn) /\
    (exists i, (setBounds series5 (Num 1) (Num 2)).(startInd) <= i
                 <= (setBounds series5 (Num 1) (Num 2)).(stopInd) /\
               aget [1; 3; 2; 5; 4]%Q i = Num mx).
Proof.
  apply (getYBounds_flat_extrema (setBounds series5 (Num 1) (Num 2))
           [1; 3; 2; 5; 4]%Q); first [reflexivity | vm_compute; intuition discriminate].
Defined.

(** The scan of the rows of a tuple-valued series, all rows present. *)
Lemma widenRows_extrema (rows : list (list Q)) (w : Z) (idx : list Z) :
  (forall i, In i idx -> tuple_at rows i <> None) ->
  forall mn mx : Q, (mn <= mx)%Q ->
  exists mn' mx',
    widenRows rows w (Num mn, Num mx) idx = Ok (Num mn', Num mx') /\
    (mn' <= mn)%Q /\ (mx <= mx')%Q /\
    (forall i t j q, In i idx -> tuple_at rows i = Some t -> 0 <= j < w ->
                     aget t j = Num q -> (mn' <= q)%Q /\ (q <= mx')%Q) /\
    (mn' = mn \/ exists i t j, In i idx /\ tuple_at rows i = Some t /\
                               0 <= j < w /\ aget t j = Num mn') /\
    (mx' = mx \/ exists i t j, In i idx /\ tuple_at rows i = Some t /\
                               0 <= j < w /\ aget t j = Num mx').
Proof.
  induction idx as [|i idx IH]; intros Hall mn mx Hle.
  - exists mn, mx. simpl. repeat split; auto using Qle_refl; contradiction.
  - cbn [widenRows]. unfold widenRow.
    destruct (tuple_at rows i) as [t|] eqn:Et;
      [|exfalso; apply (Hall i); [left; reflexivity | exact Et]].
    cbn [JS.bind]. rewrite fold_left_map_widen.
    destruct (widen_fold _ (aget_reads_numeric t (Zrange 0 (w - 1))) mn mx Hle)
      as (m1 & x1 & E1 & A1 & B1 & C1 & D1 & F1).
    rewrite E1.
    assert (Hle1 : (m1 <= x1)%Q).
    { eapply Qle_trans; [exact A1|]. eapply Qle_trans; eauto. }
    destruct (IH (fun j Hj => Hall j (or_intror Hj)) m1 x1 Hle1)
      as (m2 & x2 & E2 & A2 & B2 & C2 & D2 & F2).
    exists m2, x2. split; [exact E2|].
    assert (Hrow : forall q, In (Num q) (map (aget t) (Zrange 0 (w - 1))) ->
                   exists j, 0 <= j < w /\ aget t j = Num q).
    { intros q Hq. apply in_map_iff in Hq as (j & Ej & Hj).
      apply In_Zrange in Hj. exists j. split; [lia | exact Ej]. }
    split; [eapply Qle_trans; eauto|]. split; [eapply Qle_trans; eauto|].
    split; [|split].
    + intros i' t' j q [<- | Hi] Ht Hj Eq.
      * rewrite Et in Ht. injection Ht as <-.
        destruct (C1 q) as [P Q0].
        { apply in_map_iff. exists j. split; [exact Eq | apply In_Zrange; lia]. }
        split; eapply Qle_trans; eauto.
      * apply (C2 i' t' j q Hi Ht Hj Eq).
    + destruct D2 as [-> | (i' & t' & j & Hi & Ht & Hj & Eq)].
      * destruct D1 as [-> | D1]; [left; reflexivity|].
        destruct (Hrow _ D1) as (j & Hj & Ej).
        right. exists i, t, j. repeat split; auto; try lia. left; reflexivity.
      * right. exists i', t', j. repeat split; auto; try lia. right; exact Hi.
    + destruct F2 as [-> | (i' & t' & j & Hi & Ht & Hj & Eq)].
      * destruct F1 as [-> | F1]; [left; reflexivity|].
        destruct (Hrow _ F1) as (j & Hj & Ej).
        right. exists i, t, j. repeat split; auto; try lia. left; reflexivity.
      * right. exists i', t', j. repeat split; auto; try lia. right; exact Hi.
Qed.

(** X9: for a tuple-valued series whose window rows are all present and
    whose first window row is not empty, [getYBounds] returns the extrema
    over the window of the slots [0 .. width-1], [width] being the length
    of the first window row: every such entry lies between the two
    results and both results are entries.  Slots beyond that width are
    not looked at. *)
Theorem getYBounds_tuple_extrema (d : Data) (rows : list (list Q)) (t0 : list Q) :
  d.(y) = YTuples rows ->
  tuple_at rows d.(startInd) = Some t0 -> 1 <= alen t0 ->
  d.(startInd) <= d.(stopInd) ->
  (forall i, d.(startInd) <= i <= d.(stopInd) -> tuple_at rows i <> None) ->
  exists mn mx,
    getYBounds d = Ok (Num mn, Num mx) /\
    (forall i t j q, d.(startInd) <= i <= d.(stopInd) ->
                     tuple_at rows i = Some t -> 0 <= j < alen t0 ->
                     aget t j = Num q -> (mn <= q)%Q /\ (q <= mx)%Q) /\
    (exists i t j, d.(startInd) <= i <= d.(stopInd) /\ tuple_at rows i = Some t /\
                   0 <= j < alen t0 /\ aget t j = Num mn) /\
    (exists i t j, d.(startInd) <= i <= d.(stopInd) /\ tuple_at rows i = Some t /\
                   0 <= j < alen t0 /\ aget t j = Num mx).
Proof.
  intros Hy Ht0 Hw Hse Hall. unfold getYBounds. rewrite Hy, Ht0.
  destruct (aget_in_range t0 0) as [q0 E0]; [lia|]. rewrite E0.
  destruct (widenRows_extrema rows (alen t0) (Zrange (startInd d) (stopInd d))
              (fun i Hi => Hall i (proj1 (In_Zrange _ _ _) Hi)) q0 q0 (Qle_refl _))
    as (mn & mx & E & A & B & C & D1 & D2).
  exists mn, mx. split; [exact E|]. split; [|split].
  - intros i t j q Hi Ht Hj Eq.
    apply (C i t j q); auto. apply In_Zrange. exact Hi.
  - destruct D1 as [-> | (i & t & j & Hi & Ht & Hj & Eq)].
    + exists (startInd d), t0, 0. repeat split; auto; lia.
    + apply In_Zrange in Hi. exists i, t, j. repeat split; auto; lia.
  - destruct D2 as [-> | (i & t & j & Hi & Ht & Hj & Eq)].
    + exists (startInd d), t0, 0. repeat split; auto; lia.
    + apply In_Zrange in Hi. exists i, t, j. repeat split; auto; lia.
Qed.

Lemma widenRows_missing_row (rows : list (list Q)) (w : Z) (idx : list Z) :
  0 < w -> (exists i, In i idx /\ tuple_at rows i = None) ->
  forall b, widenRows rows w b idx = Throw TypeError.
Proof.
  intros Hw. induction idx as [|i idx IH]; intros (m & Hm & Em) b.
  - contradiction.
  - cbn [widenRows]. unfold widenRow.
    destruct (tuple_at rows i) as [t|] eqn:Et.
    + cbn [JS.bind]. apply IH. exists m. split; [|exact Em].
      destruct Hm as [<- | Hm]; [congruence | exact Hm].
    + apply Z.ltb_lt in Hw. rewrite Hw. reflexivity.
Qed.

(** X10: a tuple-valued series with a missing row inside its window (the
    y array is shorter than the window reaches) makes [getYBounds] throw
    a TypeError, provided the first window row exists and is not
    empty. *)
Theorem getYBounds_missing_row_throws
        (d : Data) (rows : list (list Q)) (t0 : list Q) (m : Z) :
  d.(y) = YTuples rows ->
  tuple_at rows d.(startInd) = Some t0 -> 1 <= alen t0 ->
  d.(startInd) <= m <= d.(stopInd) -> tuple_at rows m = None ->
  getYBounds d = Throw TypeError.
Proof.
  intros Hy Ht0 Hw Hm Em. unfold getYBounds. rewrite Hy, Ht0.
  apply widenRows_missing_row; [lia|].
  exists m. split; [apply In_Zrange; exact Hm | exact Em].
Qed.

Lemma getYBounds_tuple_extrema_witness :
  exists mn mx,
    getYBounds tupleSeries = Ok (Num mn, Num mx) /\
    (forall i t j q, 0 <= i <= 2 ->
                     tuple_at [[1; 5]; [3; 0]; [2; 7]]%Q i = Some t ->
                     0 <= j < alen [1; 5]%Q ->
                     aget t j = Num q -> (mn <= q)%Q /\ (q <= mx)%Q) /\
    (exists i t j, 0 <= i <= 2 /\ tuple_at [[1; 5]; [3; 0]; [2; 7]]%Q i = Some t /\
                   0 <= j < alen [1; 5]%Q /\ aget t j = Num mn) /\
    (exists i t j, 0 <= i <= 2 /\ tuple_at [[1; 5]; [3; 0]; [2; 7]]%Q i = Some t /\
                   0 <= j < alen [1; 5]%Q /\ aget t j = Num mx).
Proof.
  apply (getYBounds_tuple_extrema tupleSeries [[1; 5]; [3; 0]; [2; 7]]%Q [1; 5]%Q).
  - reflexivity.
  - reflexivity.
  - vm_compute; discriminate.
  - vm_compute; discriminate.
  - intros i Hi. cbn in Hi.
    assert (C : i = 0 \/ i = 1 \/ i = 2) by lia.
    destruct C as [-> | [-> | ->]]; discriminate.
Defined.

Lemma getYBounds_missing_row_throws_witness :
  getYBounds shortTupleSeries = Throw TypeError.
Proof.
  apply (getYBounds_missing_row_throws shortTupleSeries
           [[1; 2]; [3; 4]]%Q [1; 2]%Q 2).
  - reflexivity.
  - reflexivity.
  - vm_compute; discriminate.
  - vm_compute. split; discriminate.
  - reflexivity.
Defined.

(** *** [interpolate] *)

(** X11: for two points with different abscissas, [interpolate] returns a
    number on the straight line through them: the result [r] satisfies
    [(r - y0) * (x1 - x0) = (x - x0) * (y1 - y0)]; at [x0] it is [y0] and
    at [x1] it is [y1]. *)
Theorem interpolate_on_line (x0 y0 x1 y1 x2 : Q) :
  ~ (x1 == x0)%Q ->
  (exists r, interpolate (Num x0) (Num y0) (Num x1) (Num y1) (Num x2) = Num r /\
             ((r - y0) * (x1 - x0) == (x2 - x0) * (y1 - y0))%Q) /\
  (exists r, interpolate (Num x0) (Num y0) (Num x1) (Num y1) (Num x0) = Num r /\
             (r == y0)%Q) /\
  (exists r, interpolate (Num x0) (Num y0) (Num x1) (Num y1) (Num x1) = Num r /\
             (r == y1)%Q).
Proof.
  intros Hne.
  assert (Hd : ~ (Qred (x1 - x0) == 0)%Q).
  { rewrite Qred_correct. intros H. apply Hne.
    setoid_replace x1 with ((x1 - x0) + x0)%Q by ring. rewrite H. ring. }
  assert (Hd' : ~ (x1 - x0 == 0)%Q) by (rewrite <- (Qred_correct (x1 - x0)); exact Hd).
  assert (U : forall x, interpolate (Num x0) (Num y0) (Num x1) (Num y1) (Num x)
              = Num (Qred (y0 + Qred (Qred (Qred (x - x0) * Qred (y1 - y0))
                                        / Qred (x1 - x0))))).
  { intros x. unfold interpolate.
    change (JS.sub (Num x1) (Num x0)) with (Num (Qred (x1 - x0))).
    change (JS.mul (JS.sub (Num x) (Num x0)) (JS.sub (Num y1) (Num y0)))
      with (Num (Qred (Qred (x - x0) * Qred (y1 - y0)))).
    rewrite div_Num by exact Hd. reflexivity. }
  split; [|split]; eexists; (split; [apply U|]); rewrite !Qred_correct;
    field; exact Hd'.
Qed.

Lemma interpolate_on_line_witness :
  exists r, interpolate (Num 0) (Num 10) (Num 4) (Num 2) (Num 4) = Num r /\
            (r == 2)%Q.
Proof.
  apply (interpolate_on_line 0 10 4 2 1).
  intros H; vm_compute in H; discriminate H.
Defined.

(** *** What [preprocess] computes *)

Lemma mergeSeries_data (p : Plot) (rest : list Data) (acc : XDomain) :
  dom_data (fold_left (mergeSeries p) rest acc)
  = dom_data acc ++ map resetBounds rest.
Proof.
  revert acc. induction rest as [|d rest IH]; intros acc; simpl.
  - rewrite app_nil_r. reflexivity.
  - rewrite IH. unfold mergeSeries. cbn [dom_data]. rewrite <- app_assoc.
    reflexivity.
Qed.

Lemma xDomain_data (p : Plot) (dom : XDomain) :
  xDomain p = Ok dom ->
  dom_data dom
  = if JS.seq p.(zoom).(xMin) Null
    then map resetBounds p.(data)
    else map (fun d => setBounds d p.(zoom).(xMin) p.(zoom).(xMax)) p.(data).
Proof.
  unfold xDomain. destruct (JS.seq (xMin (zoom p)) Null).
  - destruct (data p) as [|d0 rest]; [discriminate|].
    intros [= <-]. rewrite mergeSeries_data. reflexivity.
  - intros [= <-]. reflexivity.
Qed.

(** The pieces of a successful [preprocess]. *)
Lemma preprocess_inv (p p' : Plot) :
  preprocess p = Ok p' ->
  exists dom,
    xDomain p = Ok dom /\
    data p' = dom_data dom /\
    frame p' = frame p /\ ctx p' = ctx p /\ ctxOverlay p' = ctxOverlay p /\
    colorInd p' = colorInd p /\
    xScale p' = JS.div (Num (plotWidth p)) (JS.sub (dom_xMax dom) (dom_xMin dom)) /\
    xBias p' = JS.sub (Num (plotXStart p)) (JS.mul (xScale p') (dom_xMin dom)) /\
    xTicks p' = getTicks p (dom_xMin dom) (dom_xMax dom) (Num (plotWidth p)) /\
    yBias p' = JS.sub (JS.div (Num (plotHeight p)) (int 2))
                      (JS.mul (JS.mul (yScale p')
                                 (if JS.seq p.(zoom).(yMin) Null
                                  then match yDomain (dom_data dom) Undefined Undefined with
                                       | Ok ext => JS.add (snd ext) (fst ext)
                                       | Throw _ => Undefined
                                       end
                                  else JS.add p.(zoom).(yMax) p.(zoom).(yMin)))
                              half) /\
    yScale p' = (if JS.seq p.(zoom).(yMin) Null
                 then match yDomain (dom_data dom) Undefined Undefined with
                      | Ok ext =>
                          JS.div (JS.sub (Num (plotHeight p))
                                         (JS.mul (int 2) (Num (heightBuffer p))))
                                 (JS.sub (fst ext) (snd ext))
                      | Throw _ => Undefined
                      end
                 else JS.div (Num (plotHeight p))
                             (JS.sub p.(zoom).(yMin) p.(zoom).(yMax))).
Proof.
  unfold preprocess. destruct (xDomain p) as [dom|] eqn:Ed; [|discriminate].
  cbn [JS.bind]. intros H. exists dom. split; [reflexivity|].
  cbn [zoom set_xTicks set_xScale set_data] in H.
  destruct (JS.seq (yMin (zoom p)) Null) eqn:Ez; cbn [negb] in H.
  - cbn [data set_xTicks set_xScale set_data] in H.
    destruct (yDomain (dom_data dom) Undefined Undefined) as [ext|] eqn:Ey;
      [|discriminate].
    cbn [JS.bind] in H. injection H as <-. cbn. repeat split; reflexivity.
  - cbn [JS.bind] in H. injection H as <-. cbn. repeat split; reflexivity.
Qed.

(** X12: [preprocess] re-windows every series on each pass: in auto-fit
    mode ([zoom.xMin === null]) every series is reset to its full extent,
    with a pinned zoom every series gets [setBounds(zoom.xMin, zoom.xMax)];
    the series are neither reordered nor dropped. *)
Theorem preprocess_windows (p p' : Plot) :
  preprocess p = Ok p' ->
  data p' = if JS.seq p.(zoom).(xMin) Null
            then map resetBounds p.(data)
            else map (fun d => setBounds d p.(zoom).(xMin) p.(zoom).(xMax)) p.(data).
Proof.
  intros H. destruct (preprocess_inv p p' H) as (dom & Ed & Hd & _).
  rewrite Hd. apply xDomain_data. exact Ed.
Qed.

Lemma preprocess_windows_witness :
  data (rendered (preprocess positiveSeries))
  = if JS.seq positiveSeries.(zoom).(xMin) Null
    then map resetBounds positiveSeries.(data)
    else map (fun d => setBounds d positiveSeries.(zoom).(xMin)
                                 positiveSeries.(zoom).(xMax))
             positiveSeries.(data).
Proof.
  apply (preprocess_windows positiveSeries (rendered (preprocess positiveSeries))).
  vm_compute; reflexivity.
Defined.

(** X13: the x scale of a pass maps the x-domain onto the plot area: for
    a numeric domain [a .. b] with [a <> b], after [preprocess] the
    canvas position of [a] is [plotXStart] and that of [b] is
    [plotXStart + plotWidth]. *)
Theorem preprocess_x_scale (p p' : Plot) (dom : XDomain) (a b : Q) :
  preprocess p = Ok p' -> xDomain p = Ok dom ->
  dom_xMin dom = Num a -> dom_xMax dom = Num b -> ~ (a == b)%Q ->
  (exists r, getXCanvasPos p' (Num a) = Num r /\ (r == plotXStart p)%Q) /\
  (exists r, getXCanvasPos p' (Num b) = Num r /\
             (r == plotXStart p + plotWidth p)%Q).
Proof.
  intros H Ed Ha Hb Hne.
  destruct (preprocess_inv p p' H) as (dom' & Ed' & _ & _ & _ & _ & _ & Hs & Hbias & _).
  rewrite Ed in Ed'. injection Ed' as <-.
  rewrite Ha, Hb in Hs. rewrite Ha in Hbias.
  assert (Hd : ~ (Qred (b - a) == 0)%Q).
  { rewrite Qred_correct. intros E. apply Hne.
    setoid_replace b with ((b - a) + a)%Q by ring. rewrite E. ring. }
  assert (Hd' : ~ (b - a == 0)%Q) by (rewrite <- (Qred_correct (b - a)); exact Hd).
  change (JS.sub (Num b) (Num a)) with (Num (Qred (b - a))) in Hs.
  rewrite div_Num in Hs by exact Hd.
  unfold getXCanvasPos. rewrite Hbias, Hs.
  split; eexists; (split; [reflexivity|]); rewrite !Qred_correct; field; exact Hd'.
Qed.

Lemma preprocess_x_scale_witness :
  (exists r, getXCanvasPos (rendered (preprocess positiveSeries)) (Num 1) = Num r /\
             (r == plotXStart positiveSeries)%Q) /\
  (exists r, getXCanvasPos (rendered (preprocess positiveSeries)) (Num 4) = Num r /\
             (r == plotXStart positiveSeries + plotWidth positiveSeries)%Q).
Proof.
  apply (preprocess_x_scale positiveSeries (rendered (preprocess positiveSeries))
           (mkXDomain (map resetBounds positiveSeries.(data)) (Num 1) (Num 4)) 1 4);
    first [vm_compute; reflexivity | intros H; vm_compute in H; discriminate H].
Defined.

Lemma yscale_images (H B mn mx : Q) (ys : value) :
  ~ (mn == mx)%Q ->
  ys = JS.div (JS.sub (Num H) (JS.mul (int 2) (Num B))) (JS.sub (Num mn) (Num mx)) ->
  let yb := JS.sub (JS.div (Num H) (int 2))
                   (JS.mul (JS.mul ys (JS.add (Num mx) (Num mn))) half) in
  (exists r, JS.add (JS.mul (Num mn) ys) yb = Num r /\ (r == H - B)%Q) /\
  (exists r, JS.add (JS.mul (Num mx) ys) yb = Num r /\ (r == B)%Q).
Proof.
  intros Hne -> yb. subst yb.
  assert (Hd : ~ (Qred (mn - mx) == 0)%Q).
  { rewrite Qred_correct. intros E. apply Hne.
    setoid_replace mn with ((mn - mx) + mx)%Q by ring. rewrite E. ring. }
  assert (Hd' : ~ (mn - mx == 0)%Q) by (rewrite <- (Qred_correct (mn - mx)); exact Hd).
  change (JS.sub (Num mn) (Num mx)) with (Num (Qred (mn - mx))).
  change (JS.sub (Num H) (JS.mul (int 2) (Num B)))
    with (Num (Qred (H - Qred (inject_Z 2 * B)))).
  rewrite div_Num by exact Hd.
  change (JS.div (Num H) (int 2)) with (Num (Qred (H / inject_Z 2))).
  split; eexists; (split; [reflexivity|]); rewrite !Qred_correct;
    unfold half; field; exact Hd'.
Qed.

(** X14: in exact rational arithmetic (rounding of doubles set aside),
    the y scale of an auto-fit pass puts the data extrema [heightBuffer]
    pixels inside the plot area, larger values higher up: for merged
    extrema [mn <> mx], the canvas position of [mn] is
    [plotHeight - heightBuffer] and that of [mx] is [heightBuffer]. *)
Theorem preprocess_y_scale_autofit (p p' : Plot) (mn mx : Q) :
  preprocess p = Ok p' -> p.(zoom).(yMin) = Null ->
  yDomain (data p') Undefined Undefined = Ok (Num mn, Num mx) -> ~ (mn == mx)%Q ->
  (exists r, getYCanvasPos p' (Num mn) = Num r /\
             (r == plotHeight p - heightBuffer p)%Q) /\
  (exists r, getYCanvasPos p' (Num mx) = Num r /\ (r == heightBuffer p)%Q).
Proof.
  intros H Hz Hy Hne.
  destruct (preprocess_inv p p' H)
    as (dom & _ & Hd & _ & _ & _ & _ & _ & _ & _ & Hbias & Hs).
  rewrite Hd in Hy. rewrite Hz, Hy in Hbias, Hs.
  change (JS.seq Null Null) with true in Hbias, Hs. cbn [fst snd] in Hbias, Hs.
  unfold getYCanvasPos. rewrite Hbias.
  exact (yscale_images (plotHeight p) (heightBuffer p) mn mx (yScale p') Hne Hs).
Qed.

Lemma preprocess_y_scale_autofit_witness :
  (exists r, getYCanvasPos (rendered (preprocess positiveSeries)) (Num 1) = Num r /\
             (r == plotHeight positiveSeries - heightBuffer positiveSeries)%Q) /\
  (exists r, getYCanvasPos (rendered (preprocess positiveSeries)) (Num 5) = Num r /\
             (r == heightBuffer positiveSeries)%Q).
Proof.
  apply (preprocess_y_scale_autofit positiveSeries
           (rendered (preprocess positiveSeries)) 1 5);
    first [vm_compute; reflexivity | intros H; vm_compute in H; discriminate H].
Defined.

(** X15: in exact rational arithmetic (rounding of doubles set aside),
    with a pinned y zoom [a .. b], [a <> b], the y scale maps the zoom
    bounds onto the edges of the plot area: the canvas position of
    [zoom.yMin] is [plotHeight] (bottom) and that of [zoom.yMax] is 0
    (top). *)
Theorem preprocess_y_scale_zoomed (p p' : Plot) (a b : Q) :
  preprocess p = Ok p' ->
  p.(zoom).(yMin) = Num a -> p.(zoom).(yMax) = Num b -> ~ (a == b)%Q ->
  (exists r, getYCanvasPos p' (Num a) = Num r /\ (r == plotHeight p)%Q) /\
  (exists r, getYCanvasPos p' (Num b) = Num r /\ (r == 0)%Q).
Proof.
  intros H Ha Hb Hne.
  destruct (preprocess_inv p p' H)
    as (dom & _ & _ & _ & _ & _ & _ & _ & _ & _ & Hbias & Hs).
  rewrite Ha, Hb in Hbias, Hs.
  change (JS.seq (Num a) Null) with false in Hbias, Hs. cbv iota in Hbias, Hs.
  assert (Hd : ~ (Qred (a - b) == 0)%Q).
  { rewrite Qred_correct. intros E. apply Hne.
    setoid_replace a with ((a - b) + b)%Q by ring. rewrite E. ring. }
  assert (Hd' : ~ (a - b == 0)%Q) by (rewrite <- (Qred_correct (a - b)); exact Hd).
  change (JS.sub (Num a) (Num b)) with (Num (Qred (a - b))) in Hs.
  rewrite div_Num in Hs by exact Hd.
  unfold getYCanvasPos. rewrite Hbias, Hs.
  change (JS.div (Num (plotHeight p)) (int 2))
    with (Num (Qred (plotHeight p / inject_Z 2))).
  split; eexists; (split; [reflexivity|]); rewrite !Qred_correct;
    unfold half; field; exact Hd'.
Qed.

Lemma preprocess_y_scale_zoomed_witness :
  (exists r, getYCanvasPos (rendered (preprocess zoomedY)) (Num 2) = Num r /\
             (r == plotHeight zoomedY)%Q) /\
  (exists r, getYCanvasPos (rendered (preprocess zoomedY)) (Num 4) = Num r /\
             (r == 0)%Q).
Proof.
  apply (preprocess_y_scale_zoomed zoomedY (rendered (preprocess zoomedY)) 2 4);
    first [vm_compute; reflexivity | intros H; vm_compute in H; discriminate H].
Defined.

(** *** What a render pass leaves alone *)

Lemma drawPoint_keeps (j : Z) (s s' : Pen) (i : Z) (fl : flow) :
  drawPoint j s i = Ok (s', fl) ->
  frame (pen_plot s') = frame (pen_plot s) /\
  scales (pen_plot s') = scales (pen_plot s) /\
  data (pen_plot s') = data (pen_plot s) /\
  same_series (pen_data s) (pen_data s').
Proof.
  unfold drawPoint. intros H.
  destruct (getY (pen_plot s) (pen_data s) i j) as [yp|]; [|discriminate H].
  cbn [JS.bind] in H.
  assert (U : exists d1 uc,
             (if hasFilter (pen_data s)
              then r <- updateFilter (pen_data s) i ;;
                   Ok (fst r, if snd r then true else updateColor s)
              else Ok (pen_data s, updateColor s)) = Ok (d1, uc) /\
             same_series (pen_data s) d1).
  { destruct (hasFilter (pen_data s)).
    - destruct (updateFilter (pen_data s) i) as [[d1 b]|] eqn:E.
      + cbn. do 2 eexists. split; [reflexivity|].
        eapply updateFilter_same_series; eauto.
      + cbn in H. discriminate H.
    - do 2 eexists. split; [reflexivity | apply same_series_refl]. }
  destruct U as (d1 & uc & EU & SS). rewrite EU in H. cbn [JS.bind fst snd] in H.
  repeat match type of H with
         | context [if ?c then _ else _] => destruct c
         end;
    injection H as <- <-; cbn [pen_plot pen_data];
    (split; [reflexivity | split; [reflexivity | split; [reflexivity | exact SS]]]).
Qed.

Lemma drawPoints_keeps (j : Z) (inds : list Z) :
  forall s s', drawPoints j s inds = Ok s' ->
  frame (pen_plot s') = frame (pen_plot s) /\
  scales (pen_plot s') = scales (pen_plot s) /\
  data (pen_plot s') = data (pen_plot s) /\
  same_series (pen_data s) (pen_data s').
Proof.
  induction inds as [|i inds IH]; intros s s' H.
  - injection H as <-.
    exact (conj eq_refl (conj eq_refl (conj eq_refl (same_series_refl _)))).
  - cbn [drawPoints] in H.
    destruct (drawPoint j s i) as [[s1 fl]|] eqn:E; [|discriminate H].
    cbn [JS.bind snd fst] in H.
    destruct (drawPoint_keeps j s s1 i fl E) as (A1 & A2 & A3 & A4).
    destruct fl.
    + destruct (IH s1 s' H) as (B1 & B2 & B3 & B4).
      refine (conj _ (conj _ (conj _ (same_series_trans _ _ _ A4 B4)))); congruence.
    + injection H as <-. exact (conj A1 (conj A2 (conj A3 A4))).
Qed.

Lemma Plot_getColor_keeps (p : Plot) :
  frame (fst (Plot_getColor p)) = frame p /\
  scales (fst (Plot_getColor p)) = scales p /\
  data (fst (Plot_getColor p)) = data p.
Proof.
  unfold Plot_getColor. destruct (colorInd p =? alen (plotColors p));
    repeat split; reflexivity.
Qed.

Lemma drawCurve_keeps (p p' : Plot) (d d' : Data) (uc uc' : bool) (j : Z) :
  drawCurve (p, d, uc) j = Ok (p', d', uc') ->
  frame p' = frame p /\ scales p' = scales p /\ data p' = data p /\
  same_series d d'.
Proof.
  unfold drawCurve. intros H.
  destruct (Plot_getColor_keeps (emit p [beginPath])) as (G1 & G2 & G3).
  set (pc := if hasColor d then (emit p [beginPath], getColor d)
             else Plot_getColor (emit p [beginPath])) in *.
  assert (K : frame (fst pc) = frame p /\ scales (fst pc) = scales p /\
              data (fst pc) = data p).
  { subst pc. destruct (hasColor d); [repeat split; reflexivity|].
    repeat split; [rewrite G1 | rewrite G2 | rewrite G3]; reflexivity. }
  destruct pc as [p1 c]. cbn [fst] in K. destruct K as (K1 & K2 & K3).
  destruct (getY (emit p1 [setStrokeStyle c]) d (startInd d) j) as [yl|];
    [|discriminate H].
  cbn [JS.bind] in H.
  match type of H with
  | context [if ?c then _ else _] => destruct c
  end.
  - destruct (getY (emit p1 [setStrokeStyle c]) d (startInd d + 1) j) as [ty|];
      [|discriminate H].
    cbn [JS.bind fst snd] in H.
    match type of H with
    | (s <- drawPoints ?j ?s0 ?l ;; _) = _ =>
        destruct (drawPoints j s0 l) as [s1|] eqn:E; [|discriminate H]
    end.
    cbn [JS.bind] in H. injection H as <- <- <-.
    destruct (drawPoints_keeps _ _ _ _ E) as (B1 & B2 & B3 & B4).
    cbn [pen_plot pen_data] in *.
    refine (conj _ (conj _ (conj _ B4))).
    + change (frame (emit (pen_plot s1) [stroke])) with (frame (pen_plot s1)).
      rewrite B1. exact K1.
    + change (scales (emit (pen_plot s1) [stroke])) with (scales (pen_plot s1)).
      rewrite B2. exact K2.
    + change (data (emit (pen_plot s1) [stroke])) with (data (pen_plot s1)).
      rewrite B3. exact K3.
  - cbn [JS.bind fst snd] in H.
    match type of H with
    | (s <- drawPoints ?j ?s0 ?l ;; _) = _ =>
        destruct (drawPoints j s0 l) as [s1|] eqn:E; [|discriminate H]
    end.
    cbn [JS.bind] in H. injection H as <- <- <-.
    destruct (drawPoints_keeps _ _ _ _ E) as (B1 & B2 & B3 & B4).
    cbn [pen_plot pen_data] in *.
    refine (conj _ (conj _ (conj _ B4))).
    + change (frame (emit (pen_plot s1) [stroke])) with (frame (pen_plot s1)).
      rewrite B1. exact K1.
    + change (scales (emit (pen_plot s1) [stroke])) with (scales (pen_plot s1)).
      rewrite B2. exact K2.
    + change (data (emit (pen_plot s1) [stroke])) with (data (pen_plot s1)).
      rewrite B3. exact K3.
Qed.

Lemma drawCurves_keeps (js : list Z) :
  forall p d uc p' d' uc',
    drawCurves (p, d, uc) js = Ok (p', d', uc') ->
    frame p' = frame p /\ scales p' = scales p /\ data p' = data p /\
    same_series d d'.
Proof.
  induction js as [|j js IH]; intros p d uc p' d' uc' H.
  - injection H as <- <- <-.
    exact (conj eq_refl (conj eq_refl (conj eq_refl (same_series_refl _)))).
  - cbn [drawCurves] in H.
    destruct (drawCurve (p, d, uc) j) as [[[p1 d1] uc1]|] eqn:E; [|discriminate H].
    cbn [JS.bind] in H.
    destruct (drawCurve_keeps _ _ _ _ _ _ _ E) as (A1 & A2 & A3 & A4).
    destruct (IH _ _ _ _ _ _ H) as (B1 & B2 & B3 & B4).
    refine (conj _ (conj _ (conj _ (same_series_trans _ _ _ A4 B4)))); congruence.
Qed.

Lemma renderAll_keeps (ds : list Data) :
  forall p done uc p' done' uc',
    renderAll (p, done, uc) ds = Ok (p', done', uc') ->
    frame p' = frame p /\ scales p' = scales p /\
    exists ds', done' = done ++ ds' /\ Forall2 same_series ds ds'.
Proof.
  induction ds as [|d ds IH]; intros p done uc p' done' uc' H.
  - injection H as <- <- <-. refine (conj eq_refl (conj eq_refl _)).
    exists []. rewrite app_nil_r. split; [reflexivity | constructor].
  - cbn [renderAll] in H. unfold renderSeries in H.
    destruct (outOfBounds p d).
    + cbn [JS.bind] in H. destruct (IH _ _ _ _ _ _ H) as (A1 & A2 & ds' & A3 & A4).
      refine (conj A1 (conj A2 _)). exists (d :: ds'). split.
      * rewrite A3, <- app_assoc. reflexivity.
      * constructor; [apply same_series_refl | exact A4].
    + destruct (drawCurves (p, d, uc) (Zrange 0 (lenData d - 1)))
        as [[[p1 d1] uc1]|] eqn:E; [|discriminate H].
      cbn [JS.bind] in H.
      destruct (drawCurves_keeps _ _ _ _ _ _ _ E) as (B1 & B2 & B3 & B4).
      destruct (IH _ _ _ _ _ _ H) as (A1 & A2 & ds' & A3 & A4).
      refine (conj _ (conj _ _)); try congruence. exists (d1 :: ds'). split.
      * rewrite A3, <- app_assoc. reflexivity.
      * constructor; assumption.
Qed.

Lemma renderData_keeps (p p' : Plot) :
  renderData p = Ok p' ->
  frame p' = frame p /\ scales p' = scales p /\
  Forall2 same_series (data p) (data p').
Proof.
  unfold renderData. intros H.
  destruct (renderAll (p, [], false) (data p)) as [[[p1 ds] uc]|] eqn:E;
    [|discriminate H].
  cbn [JS.bind] in H. injection H as <-.
  destruct (renderAll_keeps _ _ _ _ _ _ _ E) as (A1 & A2 & ds' & A3 & A4).
  cbn [app] in A3. subst ds'.
  exact (conj A1 (conj A2 A4)).
Qed.

(** X16: drawing changes no data and no setting.  After a successful
    [renderData] the geometry, palette, pinned zoom and gesture state of
    the plot and the scales and ticks are what they were, and the series
    list holds the same series in the same order, each with its points,
    options, filter table and window unchanged (only filter cursors may
    have moved). *)
Theorem renderData_frame (p p' : Plot) :
  renderData p = Ok p' ->
  frame p' = frame p /\ scales p' = scales p /\
  Forall2 same_series (data p) (data p').
Proof. exact (renderData_keeps p p'). Qed.

Lemma renderData_frame_witness :
  frame (rendered (renderData (rendered (preprocess zoomedY))))
    = frame (rendered (preprocess zoomedY)) /\
  scales (rendered (renderData (rendered (preprocess zoomedY))))
    = scales (rendered (preprocess zoomedY)) /\
  Forall2 same_series (data (rendered (preprocess zoomedY)))
          (data (rendered (renderData (rendered (preprocess zoomedY))))).
Proof.
  apply (renderData_frame (rendered (preprocess zoomedY))
           (rendered (renderData (rendered (preprocess zoomedY))))).
  vm_compute; reflexivity.
Defined.

(** *** Flat series never make a render pass throw *)

















(** X18: without any series an auto-fit render pass throws: [preprocess]
    dereferences [this.data[0]]. *)
Theorem render_without_series_throws (p : Plot) :
  data p = [] -> p.(zoom).(xMin) = Null ->
  preprocess p = Throw TypeError /\ render p = Throw TypeError.
Proof.
  intros Hd Hz.
  assert (E : preprocess p = Throw TypeError).
  { unfold preprocess, xDomain. rewrite Hz, Hd. reflexivity. }
  split; [exact E|]. unfold render. rewrite E. reflexivity.
Qed.

Lemma render_without_series_throws_witness :
  preprocess plot0 = Throw TypeError /\ render plot0 = Throw TypeError.
Proof. apply (render_without_series_throws plot0); reflexivity. Defined.

(** *** A whole render pass *)

Lemma render_inv (p p' : Plot) :
  render p = Ok p' ->
  exists p1, preprocess p = Ok p1 /\
             renderData (renderAxes (prerender p1)) = Ok p'.
Proof.
  unfold render. destruct (preprocess p) as [p1|]; [|discriminate].
  cbn [JS.bind]. eauto.
Qed.

Lemma same_points_resetBounds (d : Data) : same_points d (resetBounds d).
Proof. exact (resetBounds_same_series_fields d). Qed.

Lemma same_points_setBounds (d : Data) (s e : value) :
  same_points d (setBounds d s e).
Proof. exact (setBounds_same_series_fields d s e). Qed.

Lemma same_points_then_series (a b c : Data) :
  same_points a b -> same_series b c -> same_points a c.
Proof.
  intros (A1 & A2 & A3 & A4 & A5 & A6) (B1 & B2 & B3 & B4 & B5 & _ & _ & B8).
  unfold same_points. repeat (split; [congruence|]).
  eapply same_table_trans; eauto.
Qed.

Lemma Forall2_map_then (f : Data -> Data) (ds ds' : list Data) :
  (forall d, same_points d (f d)) ->
  Forall2 same_series (map f ds) ds' -> Forall2 same_points ds ds'.
Proof.
  intros Hf. revert ds'. induction ds as [|d ds IH]; intros ds' H.
  - inversion H. constructor.
  - inversion H as [|? d' ? ds2 S1 S2]; subst. constructor.
    + eapply same_points_then_series; eauto.
    + apply IH. exact S2.
Qed.

Lemma render_keeps (p p' : Plot) :
  render p = Ok p' ->
  frame p' = frame p /\ Forall2 same_points (data p) (data p') /\
  exists p1, preprocess p = Ok p1 /\ Forall2 same_series (data p1) (data p').
Proof.
  intros H. destruct (render_inv p p' H) as (p1 & E1 & E2).
  destruct (preprocess_inv p p1 E1) as (dom & Ed & Hd & Hf & _).
  destruct (renderData_keeps _ _ E2) as (A1 & _ & A3).
  change (frame (renderAxes (prerender p1))) with (frame p1) in A1.
  change (data (renderAxes (prerender p1))) with (data p1) in A3.
  split; [congruence|]. split; [|exists p1; split; [exact E1 | exact A3]].
  rewrite (preprocess_windows p p1 E1) in A3.
  destruct (JS.seq (xMin (zoom p)) Null).
  - eapply Forall2_map_then; [|exact A3]. apply same_points_resetBounds.
  - eapply (Forall2_map_then (fun d => setBounds d _ _)); [|exact A3].
    intros d. apply same_points_setBounds.
Qed.

(** X19: a render pass is read-only on the model it draws.  After a
    successful [render], the geometry, palette, pinned zoom and gesture
    state of the plot are unchanged, and the plot holds the same series
    in the same order with their points, options and filter tables
    unchanged: a pass only recomputes windows, cursors, the colour
    counter, scales and ticks. *)
Theorem render_frame (p p' : Plot) :
  render p = Ok p' ->
  frame p' = frame p /\ Forall2 same_points (data p) (data p').
Proof.
  intros H. destruct (render_keeps p p' H) as (A & B & _). exact (conj A B).
Qed.

Lemma render_frame_witness :
  frame (rendered (render zoomedY)) = frame zoomedY /\
  Forall2 same_points (data zoomedY) (data (rendered (render zoomedY))).
Proof.
  apply (render_frame zoomedY (rendered (render zoomedY))).
  vm_compute; reflexivity.
Defined.

(** *** The zoom gesture *)

(** X20: leaving the surface cancels the gesture: after [onmouseout] all
    gesture flags are off, the pinned zoom, the series and the plot
    canvas are untouched, and a following pointer-up or pointer-move does
    nothing at all (nothing is committed, nothing is redrawn). *)
Theorem onmouseout_cancels (p : Plot) (e e' : Event) :
  let q := onmouseout p e in
  (zooming q, xZooming q, yZooming q, rectZooming q) = (false, false, false, false) /\
  zoom q = zoom p /\ data q = data p /\ ctx q = ctx p /\
  onmouseup q e' = Ok q /\ onmousemove q e' = q.
Proof. repeat split; reflexivity. Qed.

Lemma frame_fields (p p' : Plot) :
  frame p' = frame p ->
  zoom p' = zoom p /\ zooming p' = zooming p /\ xZooming p' = xZooming p /\
  yZooming p' = yZooming p.
Proof. unfold frame. intros H. repeat split; congruence. Qed.

(** X21: releasing the pointer after an x-axis lock pins the x range
    between the anchor and the release position, ordered low to high.
    With a positive x scale [s] and bias [b], anchor pixel [a] and
    release pixel [c <> a], a successful [onmouseup] leaves the gesture
    flags off, keeps the y range, and sets [zoom.xMin < zoom.xMax] to
    the values [(min(a,c) - b) / s] and [(max(a,c) - b) / s].  Values
    and strict order are those of exact rational arithmetic: doubles
    give the rounded quotients, which can coincide when the scale is
    tiny against the bias. *)
Theorem onmouseup_commits_x_range (p p' : Plot) (e : Event) (a s b : Q) :
  zooming p = true -> xZooming p = true ->
  xZoomStart p = Num a -> xScale p = Num s -> xBias p = Num b ->
  (0 < s)%Q -> ~ (canvasX e == a)%Q ->
  onmouseup p e = Ok p' ->
  zooming p' = false /\ xZooming p' = false /\
  yMin (zoom p') = yMin (zoom p) /\ yMax (zoom p') = yMax (zoom p) /\
  exists lo hi,
    xMin (zoom p') = Num lo /\ xMax (zoom p') = Num hi /\ (lo < hi)%Q /\
    (lo == (Qmin a (canvasX e) - b) / s)%Q /\
    (hi == (Qmax a (canvasX e) - b) / s)%Q.
Proof.
  intros Hz Hxz Ha Hs Hb Hpos Hne H.
  assert (Hs0 : ~ (s == 0)%Q).
  { intros E. rewrite E in Hpos. exact (Qlt_irrefl _ Hpos). }
  unfold onmouseup in H. rewrite Hz in H.
  cbn [xZooming set_gesture zoom xZoomStart zooming yZooming rectZooming] in H.
  rewrite Hxz, Ha in H.
  unfold getXPixelPos in H.
  cbn [xBias xScale set_gesture] in H. rewrite Hs, Hb in H.
  change (JS.gt (Num (canvasX e)) (Num a)) with (Qlt_bool a (canvasX e)) in H.
  change (JS.lt (Num (canvasX e)) (Num a)) with (Qlt_bool (canvasX e) a) in H.
  assert (V : forall v, JS.div (JS.sub (Num v) (Num b)) (Num s)
                        = Num (Qred (Qred (v - b) / s))).
  { intros v. change (JS.sub (Num v) (Num b)) with (Num (Qred (v - b))).
    apply div_Num. exact Hs0. }
  rewrite !V in H.
  assert (M : forall u v, (u < v)%Q ->
              (Qred (Qred (u - b) / s) < Qred (Qred (v - b) / s))%Q).
  { intros u v Huv. rewrite !Qred_correct. unfold Qdiv.
    apply Qmult_lt_compat_r; [apply Qinv_lt_0_compat; exact Hpos|].
    apply Qplus_lt_l. exact Huv. }
  destruct (Qlt_bool a (canvasX e)) eqn:E1.
  - apply Qlt_bool_iff in E1.
    destruct (render_keeps _ _ H) as (F & _).
    apply frame_fields in F. cbn in F. destruct F as (F1 & F2 & F3 & _).
    rewrite F1, F2, F3. cbn [xMin xMax yMin yMax].
    repeat (split; [reflexivity|]).
    exists (Qred (Qred (a - b) / s)), (Qred (Qred (canvasX e - b) / s)).
    split; [reflexivity|]. split; [reflexivity|].
    split; [apply M; exact E1|].
    split.
    + rewrite (Q.min_l a (canvasX e)) by (apply Qlt_le_weak; exact E1).
      rewrite !Qred_correct. reflexivity.
    + rewrite (Q.max_r a (canvasX e)) by (apply Qlt_le_weak; exact E1).
      rewrite !Qred_correct. reflexivity.
  - destruct (Qlt_bool (canvasX e) a) eqn:E2.
    + apply Qlt_bool_iff in E2.
      destruct (render_keeps _ _ H) as (F & _).
      apply frame_fields in F. cbn in F. destruct F as (F1 & F2 & F3 & _).
      rewrite F1, F2, F3. cbn [xMin xMax yMin yMax].
      repeat (split; [reflexivity|]).
      exists (Qred (Qred (canvasX e - b) / s)), (Qred (Qred (a - b) / s)).
      split; [reflexivity|]. split; [reflexivity|].
      split; [apply M; exact E2|].
      split.
      * rewrite (Q.min_r a (canvasX e)) by (apply Qlt_le_weak; exact E2).
        rewrite !Qred_correct. reflexivity.
      * rewrite (Q.max_l a (canvasX e)) by (apply Qlt_le_weak; exact E2).
        rewrite !Qred_correct. reflexivity.
    + exfalso. apply Hne. apply Qle_antisym; apply Qnot_lt_le; intros L;
        apply Qlt_bool_iff in L; congruence.
Qed.

Lemma onmouseup_commits_x_range_witness :
  zooming (rendered (onmouseup dragged (mkEvent 200 100))) = false /\
  xZooming (rendered (onmouseup dragged (mkEvent 200 100))) = false /\
  yMin (zoom (rendered (onmouseup dragged (mkEvent 200 100)))) = yMin (zoom dragged) /\
  yMax (zoom (rendered (onmouseup dragged (mkEvent 200 100)))) = yMax (zoom dragged) /\
  exists lo hi,
    xMin (zoom (rendered (onmouseup dragged (mkEvent 200 100)))) = Num lo /\
    xMax (zoom (rendered (onmouseup dragged (mkEvent 200 100)))) = Num hi /\
    (lo < hi)%Q /\
    (lo == (Qmin 100 200 - 50) / (175 # 2))%Q /\
    (hi == (Qmax 100 200 - 50) / (175 # 2))%Q.
Proof.
  apply (onmouseup_commits_x_range dragged
           (rendered (onmouseup dragged (mkEvent 200 100)))
           (mkEvent 200 100) 100 (175 # 2) 50);
    first [vm_compute; reflexivity | intros H; vm_compute in H; discriminate H].
Defined.

Lemma resetBounds_full_window (d : Data) : full_window (resetBounds d).
Proof.
  unfold full_window, resetBounds. cbn [filter with_bounds].
  destruct (filter d); [destruct (JS.seq _ _)|]; split; reflexivity.
Qed.

Lemma full_window_same_series (d d' : Data) :
  same_series d d' -> full_window d -> full_window d'.
Proof.
  intros (A1 & _ & _ & _ & _ & A6 & A7 & _) [F1 F2].
  unfold full_window. rewrite A6, A7, A1. split; assumption.
Qed.

Lemma Forall2_Forall_map (f : Data -> Data) (P : Data -> Prop)
      (ds ds' : list Data) :
  (forall d, P (f d)) -> (forall a b, same_series a b -> P a -> P b) ->
  Forall2 same_series (map f ds) ds' -> Forall P ds'.
Proof.
  intros Hf Hs. revert ds'. induction ds as [|d ds IH]; intros ds' H.
  - inversion H. constructor.
  - inversion H as [|? d' ? ds2 S1 S2]; subst. constructor.
    + eapply Hs; eauto.
    + apply IH. exact S2.
Qed.

(** X22: a double click zooms out to the extents.  After a successful
    [ondblclick] the four zoom bounds are [null] (auto-fit), every series
    shows its full extent ([startInd = 0], [stopInd = length-1]), and the
    series themselves are the ones the plot held before. *)
Theorem ondblclick_resets_zoom (p p' : Plot) (e : Event) :
  ondblclick p e = Ok p' ->
  zoom p' = mkZoom Null Null Null Null /\
  Forall full_window (data p') /\
  Forall2 same_points (data p) (data p').
Proof.
  unfold ondblclick. intros H.
  destruct (render_keeps _ _ H) as (F & SP & p1 & E1 & SS).
  apply frame_fields in F. destruct F as (F1 & _).
  split; [exact F1|]. split; [|exact SP].
  rewrite (preprocess_windows _ _ E1) in SS.
  change (JS.seq (xMin (zoom (clearZoom p))) Null) with true in SS. cbv iota in SS.
  eapply (Forall2_Forall_map resetBounds); [| |exact SS].
  - apply resetBounds_full_window.
  - apply full_window_same_series.
Qed.

Lemma ondblclick_resets_zoom_witness :
  zoom (rendered (ondblclick zoomedY (mkEvent 10 10))) = mkZoom Null Null Null Null /\
  Forall full_window (data (rendered (ondblclick zoomedY (mkEvent 10 10)))) /\
  Forall2 same_points (data zoomedY)
          (data (rendered (ondblclick zoomedY (mkEvent 10 10)))).
Proof.
  apply (ondblclick_resets_zoom zoomedY
           (rendered (ondblclick zoomedY (mkEvent 10 10))) (mkEvent 10 10)).
  vm_compute; reflexivity.
Defined.

(** *** The palette *)

(** X23: [Plot.getColor] walks the palette cyclically and always returns
    one of its colours: with a non-empty palette of [n] colours and the
    counter [c] in [0 .. n], it returns colour number [c mod n] and
    leaves the counter at [c mod n + 1], again in [1 .. n]. *)
Theorem Plot_getColor_cycles (p : Plot) :
  1 <= alen (plotColors p) -> 0 <= colorInd p <= alen (plotColors p) ->
  exists s,
    snd (Plot_getColor p) = Color s /\
    nth_error (plotColors p)
              (Z.to_nat (colorInd p mod alen (plotColors p))) = Some s /\
    colorInd (fst (Plot_getColor p)) = colorInd p mod alen (plotColors p) + 1 /\
    1 <= colorInd (fst (Plot_getColor p)) <= alen (plotColors p) /\
    plotColors (fst (Plot_getColor p)) = plotColors p.
Proof.
  intros Hn Hc. unfold Plot_getColor.
  assert (K : forall k, 0 <= k < alen (plotColors p) ->
              exists s, color_at (plotColors p) (int k) = Color s /\
                        nth_error (plotColors p) (Z.to_nat k) = Some s).
  { intros k Hk. unfold color_at, int. rewrite Qfloor_inject_Z.
    assert (E : Qeq_bool (inject_Z k) (inject_Z k) = true)
      by (apply Qeq_bool_iff; reflexivity).
    assert (L : (0 <=? k) = true) by (apply Z.leb_le; lia).
    rewrite E, L. cbn [andb].
    destruct (nth_error (plotColors p) (Z.to_nat k)) as [s|] eqn:N; [eauto|].
    apply nth_error_None in N. unfold alen in Hk. lia. }
  destruct (colorInd p =? alen (plotColors p)) eqn:E.
  - apply Z.eqb_eq in E. rewrite E, Z.mod_same by lia.
    cbn [fst snd colorInd plotColors set_colorInd].
    destruct (K 0 ltac:(lia)) as (s & A & B). exists s.
    repeat (split; [first [assumption | reflexivity | lia]|]). reflexivity.
  - apply Z.eqb_neq in E. rewrite Z.mod_small by lia.
    cbn [fst snd colorInd plotColors set_colorInd].
    destruct (K (colorInd p) ltac:(lia)) as (s & A & B). exists s.
    repeat (split; [first [assumption | reflexivity | lia]|]). reflexivity.
Qed.

Lemma Plot_getColor_cycles_witness :
  exists s,
    snd (Plot_getColor (set_colorInd plot0 6)) = Color s /\
    nth_error (plotColors plot0) (Z.to_nat (6 mod alen (plotColors plot0))) = Some s /\
    colorInd (fst (Plot_getColor (set_colorInd plot0 6)))
      = 6 mod alen (plotColors plot0) + 1 /\
    1 <= colorInd (fst (Plot_getColor (set_colorInd plot0 6)))
      <= alen (plotColors plot0) /\
    plotColors (fst (Plot_getColor (set_colorInd plot0 6))) = plotColors plot0.
Proof.
  apply (Plot_getColor_cycles (set_colorInd plot0 6));
    vm_compute; first [discriminate | split; discriminate].
Defined.

(** *** Ticks *)

Lemma Zrange_sorted (hi : Z) :
  forall (n : nat) (lo : Z), n = Z.to_nat (hi + 1 - lo) ->
  StronglySorted Z.lt (Zrange lo hi).
Proof.
  induction n as [|n IH]; intros lo Hn.
  - rewrite Zrange_nil by lia. constructor.
  - rewrite Zrange_cons by lia. constructor.
    + apply IH. lia.
    + apply Forall_forall. intros i Hi. apply In_Zrange in Hi. lia.
Qed.

Lemma indicesBelow_sorted (n : value) : StronglySorted Z.lt (indicesBelow n).
Proof.
  unfold indicesBelow. destruct (ToNumber n); try constructor.
  eapply Zrange_sorted. reflexivity.
Qed.

Lemma flat_map_filter_sorted (g : Z -> value) (c : Z -> bool) (idx : list Z) :
  StronglySorted Z.lt idx ->
  (forall i j, i < j -> JS.lt (g i) (g j) = true) ->
  ascending (flat_map (fun i => if c i then [g i] else []) idx).
Proof.
  intros Hs Hg. unfold ascending. induction Hs as [|i idx Hs IH Hall].
  - constructor.
  - cbn [flat_map]. destruct (c i); [|exact IH].
    cbn [app]. constructor; [exact IH|].
    apply Forall_forall. intros v Hv. apply in_flat_map in Hv as (j & Hj & Hv).
    rewrite Forall_forall in Hall. specialize (Hall j Hj).
    destruct (c j); [|contradiction]. destruct Hv as [<- | []].
    apply Hg. exact Hall.
Qed.

(** After the multiplier loop the step is a positive number and the grid
    origin [low] a number, whenever the base scale is positive. *)
Lemma multLoop_numeric (mt bs a : Q) (mx px : value) :
  (0 < bs)%Q ->
  forall (ms : list Q) (st : TickVars),
    Forall (fun m => (0 < m)%Q) ms ->
    (ms = [] -> exists s l, t_scale st = Num s /\ (0 < s)%Q /\ t_low st = Num l) ->
    exists s l,
      t_scale (multLoop mt (Num bs) (Num a) mx px ms st) = Num s /\ (0 < s)%Q /\
      t_low (multLoop mt (Num bs) (Num a) mx px ms st) = Num l.
Proof.
  intros Hbs. induction ms as [|m rest IH]; intros st Hpos Hst.
  - apply Hst. reflexivity.
  - inversion Hpos as [|? ? Hm Hrest]; subst.
    cbn [multLoop].
    change (JS.mul (Num bs) (Num m)) with (Num (Qred (bs * m))).
    assert (Hsc : (0 < Qred (bs * m))%Q).
    { rewrite Qred_correct. apply Qmult_lt_0_compat; assumption. }
    assert (Hsc0 : ~ (Qred (bs * m) == 0)%Q).
    { intros E. rewrite E in Hsc. exact (Qlt_irrefl _ Hsc). }
    rewrite (div_Num a _ Hsc0).
    match goal with
    | |- context [if ?c then _ else _] => destruct c
    end.
    + cbn [t_scale t_low]. do 2 eexists. split; [reflexivity|].
      split; [exact Hsc | reflexivity].
    + apply IH; [exact Hrest|]. intros _. cbn [t_scale t_low].
      do 2 eexists. split; [reflexivity|]. split; [exact Hsc | reflexivity].
Qed.

Lemma mults_positive : Forall (fun m => (0 < m)%Q) mults.
Proof. repeat constructor. Qed.

Lemma pow10_int (k : Z) : pow10 (int k) = num (10 ^ k).
Proof.
  unfold pow10, int. cbn [ToNumber]. rewrite Qfloor_inject_Z.
  assert (E : Qeq_bool (inject_Z k) (inject_Z k) = true)
    by (apply Qeq_bool_iff; reflexivity).
  rewrite E. reflexivity.
Qed.

Lemma tickVars_numeric (p : Plot) (a b : Q) (px : value) :
  (a < b)%Q ->
  exists s l,
    t_scale (tickVars p (Num a) (Num b) px) = Num s /\ (0 < s)%Q /\
    t_low (tickVars p (Num a) (Num b) px) = Num l.
Proof.
  intros Hab. unfold tickVars.
  change (JS.sub (Num b) (Num a)) with (Num (Qred (b - a))).
  assert (Hd : (0 < Qred (b - a))%Q).
  { rewrite Qred_correct. unfold Qminus. rewrite <- (Qplus_opp_r a).
    apply Qplus_lt_l. exact Hab. }
  destruct (floor_log10_spec _ Hd) as (k & -> & _).
  rewrite pow10_int. unfold num.
  apply multLoop_numeric.
  - rewrite Qred_correct. apply pow10_pos.
  - apply mults_positive.
  - discriminate.
Qed.

(** X24: for numbers [minVal < maxVal], the ticks [getTicks] returns are
    strictly ascending and every one of them lies within
    [minVal .. maxVal]. *)
Theorem getTicks_ascending_in_range (p : Plot) (a b : Q) (px : value) :
  (a < b)%Q ->
  ascending (getTicks p (Num a) (Num b) px) /\
  (forall t, In t (getTicks p (Num a) (Num b) px) ->
             JS.ge t (Num a) = true /\ JS.le t (Num b) = true).
Proof.
  intros Hab.
  destruct (tickVars_numeric p a b px Hab) as (s & l & Es & Hs & El).
  unfold getTicks. cbv zeta. rewrite Es, El. split.
  - apply (flat_map_filter_sorted
             (fun i => JS.add (Num l) (JS.mul (int i) (Num s)))
             (fun i => JS.ge (JS.add (Num l) (JS.mul (int i) (Num s))) (Num a)
                       && JS.le (JS.add (Num l) (JS.mul (int i) (Num s))) (Num b))).
    + apply indicesBelow_sorted.
    + intros i j Hij.
      change (JS.lt (JS.add (Num l) (JS.mul (int i) (Num s)))
                    (JS.add (Num l) (JS.mul (int j) (Num s))))
        with (Qlt_bool (Qred (l + Qred (inject_Z i * s)))
                       (Qred (l + Qred (inject_Z j * s)))).
      apply Qlt_bool_iff. rewrite !Qred_correct.
      apply Qplus_lt_r. apply Qmult_lt_compat_r; [exact Hs|].
      rewrite <- Zlt_Qlt. exact Hij.
  - intros t Ht. apply in_flat_map in Ht as (i & _ & Ht).
    destruct (JS.ge _ _ && JS.le _ _) eqn:E; [|contradiction].
    destruct Ht as [<- | []]. apply andb_true_iff in E. exact E.
Qed.

Lemma getTicks_ascending_in_range_witness :
  ascending (getTicks plot0 (Num (3 # 10)) (Num 97) (Num 350)) /\
  (forall t, In t (getTicks plot0 (Num (3 # 10)) (Num 97) (Num 350)) ->
             JS.ge t (Num (3 # 10)) = true /\ JS.le t (Num 97) = true).
Proof.
  apply (getTicks_ascending_in_range plot0 (3 # 10) 97 (Num 350)).
  vm_compute; reflexivity.
Defined.

Lemma multLoop_not_a_number (mt a b : Q) (px : value) :
  forall (ms : list Q) (st : TickVars),
    ToNumber (t_nTicks st) = NaN ->
    ToNumber (t_nTicks (multLoop mt NaN (Num a) (Num b) px ms st)) = NaN.
Proof.
  induction ms as [|m rest IH]; intros st Hst; [exact Hst|].
  cbn [multLoop].
  match goal with
  | |- context [if ?c then _ else _] => destruct c
  end; [reflexivity | apply IH; reflexivity].
Qed.

(** X25: a degenerate range yields no ticks: for numbers with
    [maxVal <= minVal] (a single point or an inverted range) [getTicks]
    returns the empty list. *)
Theorem getTicks_degenerate_range (p : Plot) (a b : Q) (px : value) :
  (b <= a)%Q -> getTicks p (Num a) (Num b) px = [].
Proof.
  intros Hba. unfold getTicks, tickVars. cbv zeta.
  change (JS.sub (Num b) (Num a)) with (Num (Qred (b - a))).
  assert (E : floor_log10 (Num (Qred (b - a))) = NaN).
  { unfold floor_log10. cbn [ToNumber].
    destruct (Qlt_bool 0 (Qred (b - a))) eqn:L; [|reflexivity].
    apply Qlt_bool_iff in L. rewrite Qred_correct in L. exfalso.
    apply (Qlt_not_le _ _ L). unfold Qminus. rewrite <- (Qplus_opp_r a).
    apply Qplus_le_l. exact Hba. }
  rewrite E. change (pow10 NaN) with NaN.
  pose proof (multLoop_not_a_number (minTickPixels p) a b px mults
                (mkTickVars Undefined Undefined Undefined Undefined Undefined)
                eq_refl) as N.
  unfold indicesBelow. rewrite N. reflexivity.
Qed.

Lemma getTicks_degenerate_range_witness :
  getTicks plot0 (Num 3) (Num 3) (Num 350) = [].
Proof.
  apply (getTicks_degenerate_range plot0 3 3 (Num 350)).
  vm_compute; discriminate.
Defined.

(** X26: releasing the pointer after a y-axis lock pins the y range
    between anchor and release, ordered low to high on the inverted
    axis.  With a negative y scale [s] and bias [b], anchor pixel [a]
    and release pixel [c <> a], a successful [onmouseup] leaves the
    gesture flags off, keeps the x range, and sets
    [zoom.yMin < zoom.yMax] to [(max(a,c) - b) / s] and
    [(min(a,c) - b) / s].  Values and strict order are those of exact
    rational arithmetic: doubles give the rounded quotients, which can
    coincide when the scale is tiny against the bias. *)
Theorem onmouseup_commits_y_range (p p' : Plot) (e : Event) (a s b : Q) :
  zooming p = true -> xZooming p = false -> yZooming p = true ->
  yZoomStart p = Num a -> yScale p = Num s -> yBias p = Num b ->
  (s < 0)%Q -> ~ (canvasY e == a)%Q ->
  onmouseup p e = Ok p' ->
  zooming p' = false /\ yZooming p' = false /\
  xMin (zoom p') = xMin (zoom p) /\ xMax (zoom p') = xMax (zoom p) /\
  exists lo hi,
    yMin (zoom p') = Num lo /\ yMax (zoom p') = Num hi /\ (lo < hi)%Q /\
    (lo == (Qmax a (canvasY e) - b) / s)%Q /\
    (hi == (Qmin a (canvasY e) - b) / s)%Q.
Proof.
  intros Hz Hxz Hyz Ha Hs Hb Hneg Hne H.
  assert (Hs0 : ~ (s == 0)%Q).
  { intros E. rewrite E in Hneg. exact (Qlt_irrefl _ Hneg). }
  unfold onmouseup in H. rewrite Hz in H.
  cbn [xZooming set_gesture zoom yZoomStart zooming yZooming rectZooming] in H.
  rewrite Hxz, Hyz, Ha in H.
  unfold getYPixelPos in H.
  cbn [yBias yScale set_gesture] in H. rewrite Hs, Hb in H.
  change (JS.gt (Num (canvasY e)) (Num a)) with (Qlt_bool a (canvasY e)) in H.
  change (JS.lt (Num (canvasY e)) (Num a)) with (Qlt_bool (canvasY e) a) in H.
  assert (V : forall v, JS.div (JS.sub (Num v) (Num b)) (Num s)
                        = Num (Qred (Qred (v - b) / s))).
  { intros v. change (JS.sub (Num v) (Num b)) with (Num (Qred (v - b))).
    apply div_Num. exact Hs0. }
  rewrite !V in H.
  assert (M : forall u v, (u < v)%Q ->
              (Qred (Qred (v - b) / s) < Qred (Qred (u - b) / s))%Q).
  { intros u v Huv. rewrite !Qred_correct.
    assert (Hpos : (0 < - s)%Q) by exact (Qopp_lt_compat s 0 Hneg).
    apply (Qmult_lt_r _ _ (- s) Hpos).
    setoid_replace ((v - b) / s * - s)%Q with (- (v - b))%Q by (field; exact Hs0).
    setoid_replace ((u - b) / s * - s)%Q with (- (u - b))%Q by (field; exact Hs0).
    apply Qopp_lt_compat. apply Qplus_lt_l. exact Huv. }
  destruct (Qlt_bool a (canvasY e)) eqn:E1.
  - apply Qlt_bool_iff in E1.
    destruct (render_keeps _ _ H) as (F & _).
    apply frame_fields in F. cbn in F. destruct F as (F1 & F2 & _ & F4).
    rewrite F1, F2, F4. cbn [xMin xMax yMin yMax].
    repeat (split; [reflexivity|]).
    exists (Qred (Qred (canvasY e - b) / s)), (Qred (Qred (a - b) / s)).
    split; [reflexivity|]. split; [reflexivity|].
    split; [apply M; exact E1|].
    split.
    + rewrite (Q.max_r a (canvasY e)) by (apply Qlt_le_weak; exact E1).
      rewrite !Qred_correct. reflexivity.
    + rewrite (Q.min_l a (canvasY e)) by (apply Qlt_le_weak; exact E1).
      rewrite !Qred_correct. reflexivity.
  - destruct (Qlt_bool (canvasY e) a) eqn:E2.
    + apply Qlt_bool_iff in E2.
      destruct (render_keeps _ _ H) as (F & _).
      apply frame_fields in F. cbn in F. destruct F as (F1 & F2 & _ & F4).
      rewrite F1, F2, F4. cbn [xMin xMax yMin yMax].
      repeat (split; [reflexivity|]).
      exists (Qred (Qred (a - b) / s)), (Qred (Qred (canvasY e - b) / s)).
      split; [reflexivity|]. split; [reflexivity|].
      split; [apply M; exact E2|].
      split.
      * rewrite (Q.max_l a (canvasY e)) by (apply Qlt_le_weak; exact E2).
        rewrite !Qred_correct. reflexivity.
      * rewrite (Q.min_r a (canvasY e)) by (apply Qlt_le_weak; exact E2).
        rewrite !Qred_correct. reflexivity.
    + exfalso. apply Hne. apply Qle_antisym; apply Qnot_lt_le; intros L;
        apply Qlt_bool_iff in L; congruence.
Qed.

Lemma onmouseup_commits_y_range_witness :
  zooming (rendered (onmouseup draggedY (mkEvent 100 200))) = false /\
  yZooming (rendered (onmouseup draggedY (mkEvent 100 200))) = false /\
  xMin (zoom (rendered (onmouseup draggedY (mkEvent 100 200)))) = xMin (zoom draggedY) /\
  xMax (zoom (rendered (onmouseup draggedY (mkEvent 100 200)))) = xMax (zoom draggedY) /\
  exists lo hi,
    yMin (zoom (rendered (onmouseup draggedY (mkEvent 100 200)))) = Num lo /\
    yMax (zoom (rendered (onmouseup draggedY (mkEvent 100 200)))) = Num hi /\
    (lo < hi)%Q /\
    (lo == (Qmax 100 200 - (565 # 2)) / (-105 # 2))%Q /\
    (hi == (Qmin 100 200 - (565 # 2)) / (-105 # 2))%Q.
Proof.
  apply (onmouseup_commits_y_range draggedY
           (rendered (onmouseup draggedY (mkEvent 100 200)))
           (mkEvent 100 200) 100 (-105 # 2) (565 # 2));
    first [vm_compute; reflexivity | intros H; vm_compute in H; discriminate H].
Defined.

(** *** Targets outside the data *)

Lemma bsLoop_nothing_below (a : list Q) (t : value) :
  2 <= alen a -> (forall i, JS.le (aget a i) t = false) ->
  bsLoop a t 0 (alen a - 1) = (0, 1).
Proof.
  intros Hn Hle.
  destruct (bsLoop_invariant a t (fun lo hi => lo = 0 /\ 1 <= hi))
    with (lo := 0) (hi := alen a - 1) as [[H1 H2] H3].
  - intros lo hi Hd _ E. rewrite Hle in E. discriminate E.
  - intros lo hi Hd [-> Hh] _. pose proof (midpoint_between 0 hi Hd). lia.
  - lia.
  - destruct (bsLoop a t 0 (alen a - 1)) as [lo hi]. cbn [fst snd] in *.
    f_equal; lia.
Qed.

(** X27: a target before the data, or one that is not a number, gets the
    first bracket.  On an array of at least two elements, if the target
    is NaN or [undefined], or is a number below the first element of a
    strictly increasing array, the lower result is 0 and the upper
    result is 1. *)
Theorem binarySearch_first_bracket (a : list Q) (t : value) :
  2 <= alen a ->
  (t = NaN \/ t = Undefined \/
   exists q, t = Num q /\ increasing a /\ JS.lt (Num q) (aget a 0) = true) ->
  binarySearch a t false = 0 /\ binarySearch a t true = 1.
Proof.
  intros Hn Ht. rewrite !binarySearch_unfold, bsLoop_nothing_below; auto.
  destruct Ht as [-> | [-> | (q & -> & Hinc & H0)]].
  - intros i. unfold JS.le, rel. destruct (ToNumber (aget a i)); reflexivity.
  - intros i. unfold JS.le, rel. destruct (ToNumber (aget a i)); reflexivity.
  - intros i. destruct (JS.le (aget a i) (Num q)) eqn:E; [exfalso|reflexivity].
    apply le_aget in E as (u & Eu & Hu).
    destruct (aget_in_range a 0) as [v Ev]; [lia|]. rewrite Ev in H0.
    apply lt_Num in H0. apply aget_Some in Eu as Hi. destruct Hi as [Hi0 _].
    pose proof (increasing_aget_le a 0 i v u Hinc Hi0 Ev Eu) as L.
    apply (Qlt_not_le _ _ H0). eapply Qle_trans; eauto.
Qed.

Lemma binarySearch_first_bracket_witness :
  binarySearch [1; 3; 4; 9]%Q (Num 0) false = 0 /\
  binarySearch [1; 3; 4; 9]%Q (Num 0) true = 1.
Proof.
  apply (binarySearch_first_bracket [1; 3; 4; 9]%Q (Num 0)).
  - vm_compute; discriminate.
  - right. right. exists 0%Q. repeat split; reflexivity.
Defined.
